(** * sf::IndexBuffer: a shallow embedding of src/SFML/Graphics/IndexBuffer.cpp

    The C++ class keeps three members ([m_buffer], [m_size], [m_usage]) and
    talks to the OpenGL driver through [glCheck(GLEXT_gl...(...))] calls.
    The members are a record; the driver is an explicit [World] that every
    method threads through a small state monad.  Reading client memory past
    the end of the array behind a pointer, or through a null pointer, is
    undefined behaviour in C++: the monad has an [Undefined] outcome for it.

    Integer widths are those of an LP64 build: [std::size_t] is 64 bits,
    [unsigned int] and [GLuint] are 32 bits, [GLsizeiptr]/[GLintptr] are
    signed 64 bits.  Unsigned values are [N] with the wrap-around written
    out, signed ones are [Z].

    [TransientContextLock] only makes a context current for the duration of
    a method; there is one context here, so it is not represented. *)

From stdpp Require Import gmap list strings.

Local Open Scope N_scope.

(** ** Machine integers *)

Definition SIZE_MAX : N := 2 ^ 64 - 1.
Definition PTRDIFF_MAX : Z := (2 ^ 63 - 1)%Z.

(** Arithmetic on [std::size_t] wraps modulo [2^64]. *)
Definition size_t_wrap (x : N) : N := x mod 2 ^ 64.

(** [static_cast<GLsizeiptrARB>(x)] of a [std::size_t]: two's complement. *)
Definition to_GLsizeiptr (x : N) : Z :=
  let y := Z.of_N (size_t_wrap x) in
  if (y <=? PTRDIFF_MAX)%Z then y else (y - 2 ^ 64)%Z.

Definition sizeof_GLuint : N := 4.

(** ** The class members *)

Inductive Usage := Stream | Dynamic | Static.

Inductive GLenum_usage := GL_STREAM_DRAW | GL_DYNAMIC_DRAW | GL_STATIC_DRAW.

Record IndexBuffer := mkIndexBuffer {
  m_buffer : N;      (* unsigned int: internal buffer identifier, 0 = none *)
  m_size   : N;      (* std::size_t: size in indices of the allocated buffer *)
  m_usage  : Usage   (* how this index buffer is to be used *)
}.

Definition with_buffer (b : N) (this : IndexBuffer) : IndexBuffer :=
  mkIndexBuffer b (m_size this) (m_usage this).
Definition with_size (n : N) (this : IndexBuffer) : IndexBuffer :=
  mkIndexBuffer (m_buffer this) n (m_usage this).
Definition with_usage (u : Usage) (this : IndexBuffer) : IndexBuffer :=
  mkIndexBuffer (m_buffer this) (m_size this) u.

(** A [const GLuint*]: [None] is [nullptr], [Some arr] points to the first
    element of the array [arr]. *)
Definition GLuint_ptr := option (list N).

(** The caller's contract of the update functions ("no additional check is
    performed on the size of the index array"): a non-null pointer at which
    [n] indices can be read.  A C++ array never exceeds [PTRDIFF_MAX] bytes. *)
Definition readable (indices : GLuint_ptr) (n : N) : Prop :=
  ∃ arr, indices = Some arr ∧
         n ≤ N.of_nat (length arr) ∧
         (Z.of_N (sizeof_GLuint * N.of_nat (length arr)) ≤ PTRDIFF_MAX)%Z.

(** ** The OpenGL driver

    A buffer object's data store is kept in cells of [sizeof(GLuint)] bytes:
    every byte offset and byte size IndexBuffer.cpp passes to the driver is
    a product [sizeof(GLuint) * n].  A cell is [None] while its content is
    unspecified: [glBufferData] with a null data pointer allocates a store
    of the requested size and promises nothing about what is in it. *)

Inductive Access := GL_READ_ONLY | GL_WRITE_ONLY.

#[global] Instance Access_eq_dec : EqDecision Access.
Proof. solve_decision. Defined.

Record BufferObject := mkBufferObject {
  bo_data   : list (option N);   (* the data store, one cell per index *)
  bo_usage  : GLenum_usage;      (* the usage it was allocated with *)
  bo_mapped : option Access      (* mapped into client memory, and how *)
}.

Inductive Target :=
  GL_ELEMENT_ARRAY_BUFFER | GL_COPY_READ_BUFFER | GL_COPY_WRITE_BUFFER.

Record World := mkWorld {
  gl_buffers       : gmap N BufferObject;  (* buffer objects by name *)
  gl_element_array : N;                    (* the three binding points *)
  gl_copy_read     : N;
  gl_copy_write    : N;
  GLEXT_copy_buffer : bool;                (* fast-copy capability *)
  gl_gen_script    : list bool;   (* will the next glGenBuffers succeed? *)
  gl_unmap_script  : list bool;   (* results of the next glUnmapBuffer calls *)
  err_stream       : list string  (* what was written to sf::err() *)
}.

Definition with_buffers (f : gmap N BufferObject → gmap N BufferObject)
    (w : World) : World :=
  mkWorld (f (gl_buffers w)) (gl_element_array w) (gl_copy_read w)
    (gl_copy_write w) (GLEXT_copy_buffer w) (gl_gen_script w)
    (gl_unmap_script w) (err_stream w).

Definition binding (t : Target) (w : World) : N :=
  match t with
  | GL_ELEMENT_ARRAY_BUFFER => gl_element_array w
  | GL_COPY_READ_BUFFER => gl_copy_read w
  | GL_COPY_WRITE_BUFFER => gl_copy_write w
  end.

Definition with_binding (t : Target) (name : N) (w : World) : World :=
  match t with
  | GL_ELEMENT_ARRAY_BUFFER =>
      mkWorld (gl_buffers w) name (gl_copy_read w) (gl_copy_write w)
        (GLEXT_copy_buffer w) (gl_gen_script w) (gl_unmap_script w)
        (err_stream w)
  | GL_COPY_READ_BUFFER =>
      mkWorld (gl_buffers w) (gl_element_array w) name (gl_copy_write w)
        (GLEXT_copy_buffer w) (gl_gen_script w) (gl_unmap_script w)
        (err_stream w)
  | GL_COPY_WRITE_BUFFER =>
      mkWorld (gl_buffers w) (gl_element_array w) (gl_copy_read w) name
        (GLEXT_copy_buffer w) (gl_gen_script w) (gl_unmap_script w)
        (err_stream w)
  end.

Definition with_gen_script (s : list bool) (w : World) : World :=
  mkWorld (gl_buffers w) (gl_element_array w) (gl_copy_read w)
    (gl_copy_write w) (GLEXT_copy_buffer w) s (gl_unmap_script w)
    (err_stream w).

Definition with_unmap_script (s : list bool) (w : World) : World :=
  mkWorld (gl_buffers w) (gl_element_array w) (gl_copy_read w)
    (gl_copy_write w) (GLEXT_copy_buffer w) (gl_gen_script w) s
    (err_stream w).

Definition with_err (msg : string) (w : World) : World :=
  mkWorld (gl_buffers w) (gl_element_array w) (gl_copy_read w)
    (gl_copy_write w) (GLEXT_copy_buffer w) (gl_gen_script w)
    (gl_unmap_script w) (err_stream w ++ [msg]).

(** ** The monad of driver calls *)

Inductive outcome (A : Type) :=
  | Done (a : A)
  | Undefined.
Arguments Done {A} a.
Arguments Undefined {A}.

Definition GL (A : Type) : Type := World → outcome (A * World).

Definition gl_ret {A} (a : A) : GL A := λ w, Done (a, w).

Definition gl_bind {A B} (m : GL A) (k : A → GL B) : GL B :=
  λ w, match m w with
       | Done (a, w') => k a w'
       | Undefined => Undefined
       end.

#[global] Instance gl_mret : MRet GL := @gl_ret.
#[global] Instance gl_mbind : MBind GL := λ A B k m, gl_bind m k.

(** A driver call that only changes the driver's state. *)
Definition gl_modify (f : World → World) : GL unit := λ w, Done (tt, f w).

(** [err() << msg << std::endl] *)
Definition err (msg : string) : GL unit := gl_modify (with_err msg).


(** ** Driver calls used by IndexBuffer.cpp

    Modelled from the spec: GLExtensions.hpp (the [GLEXT_] macros and
    [sf::priv::ensureExtensionsInit]) and GLCheck.hpp ([glCheck]) are not
    among the sources.  Each [GLEXT_glX] is the OpenGL command [glX], acting
    on the device storage the specification describes, with the command's
    documented error conditions; a command that raises a GL error leaves the
    driver state as it was.  [glCheck(call)] is [call], as in a build
    without [SFML_DEBUG].  [GLEXT_copy_buffer] is the fast-copy capability
    and is a fact about the driver.  The driver is taken to have memory for
    every store whose byte size fits [GLsizeiptr]. *)

(** Number of [GLuint] cells in a non-negative byte count. *)
Definition cells (bytes : Z) : nat := Z.to_nat (bytes / Z.of_N sizeof_GLuint).

(** Byte size of a data store. *)
Definition store_bytes (bo : BufferObject) : Z :=
  (Z.of_N sizeof_GLuint * Z.of_nat (length (bo_data bo)))%Z.

(** A new buffer object: empty store, [GL_STATIC_DRAW], not mapped. *)
Definition new_object : BufferObject := mkBufferObject [] GL_STATIC_DRAW None.

(** An unused, non-zero buffer name. *)
Definition fresh_name (w : World) : N := fresh ({[0]} ∪ dom (gl_buffers w)).

(** [glGenBuffers(1, &name)]: returns the new name, or [0] when the driver
    generates none (the variable keeps its value, which is [0] at the only
    call site).  The name is reserved by recording an empty object. *)
Definition glGenBuffers : GL N := λ w,
  match gl_gen_script w with
  | false :: s => Done (0, with_gen_script s w)
  | ok =>
      let name := fresh_name w in
      Done (name, with_gen_script (tail ok)
                    (with_buffers (insert name new_object) w))
  end.

(** Binding a name that has no object yet creates the object. *)
Definition ensure_object (name : N) (w : World) : World :=
  if (name =? 0) || bool_decide (is_Some (gl_buffers w !! name)) then w
  else with_buffers (insert name new_object) w.

(** [glBindBuffer(target, name)] *)
Definition glBindBuffer (t : Target) (name : N) : GL unit :=
  gl_modify (λ w, with_binding t name (ensure_object name w)).

(** [glBufferData(target, size, nullptr, usage)]: a fresh store of [size]
    bytes whose content is unspecified; the old store is discarded and any
    mapping of it ends.  [GL_INVALID_OPERATION] when nothing is bound,
    [GL_INVALID_VALUE] when [size] is negative. *)
Definition glBufferData (t : Target) (size : Z) (usage : GLenum_usage)
    : GL unit :=
  gl_modify (λ w,
    let name := binding t w in
    match gl_buffers w !! name with
    | Some _ =>
        if (name =? 0) || (size <? 0)%Z then w
        else with_buffers
               (insert name (mkBufferObject (replicate (cells size) None)
                               usage None)) w
    | None => w
    end).

(** [glBufferSubData(target, offset, size, data)]: overwrites the bytes
    [offset, offset + size) of the bound store with [size] bytes read at
    [data].  [GL_INVALID_VALUE] when [offset] or [size] is negative or the
    range ends past the store, [GL_INVALID_OPERATION] when nothing is bound
    or the store is mapped.  Reading [size] bytes at [data] is undefined
    when fewer are there. *)
Definition glBufferSubData (t : Target) (offset size : Z)
    (data : GLuint_ptr) : GL unit := λ w,
  let name := binding t w in
  match gl_buffers w !! name with
  | Some bo =>
      if (name =? 0) || (offset <? 0)%Z || (size <? 0)%Z
         || (store_bytes bo <? offset + size)%Z
         || bool_decide (is_Some (bo_mapped bo))
      then Done (tt, w)
      else
        let arr := default [] data in
        if bool_decide (cells size ≤ length arr)%nat then
          let store :=
            list_inserts (cells offset) (Some <$> take (cells size) arr)
              (bo_data bo) in
          Done (tt, with_buffers
                      (insert name (mkBufferObject store (bo_usage bo)
                                      (bo_mapped bo))) w)
        else Undefined
  | None => Done (tt, w)
  end.

(** [glCopyBufferSubData(readTarget, writeTarget, readOffset, writeOffset,
    size)]: copies [size] bytes between the two bound stores.
    [GL_INVALID_VALUE] when an argument is negative, a range ends past its
    store, or both targets name one buffer and the ranges overlap;
    [GL_INVALID_OPERATION] when a target has nothing bound or a store is
    mapped. *)
Definition glCopyBufferSubData (rt wt : Target) (roff woff size : Z)
    : GL unit :=
  gl_modify (λ w,
    let rn := binding rt w in
    let wn := binding wt w in
    match gl_buffers w !! rn, gl_buffers w !! wn with
    | Some rbo, Some wbo =>
        if (rn =? 0) || (wn =? 0)
           || (roff <? 0)%Z || (woff <? 0)%Z || (size <? 0)%Z
           || (store_bytes rbo <? roff + size)%Z
           || (store_bytes wbo <? woff + size)%Z
           || bool_decide (is_Some (bo_mapped rbo))
           || bool_decide (is_Some (bo_mapped wbo))
           || ((rn =? wn) && (roff <? woff + size)%Z
               && (woff <? roff + size)%Z)
        then w
        else
          let chunk := take (cells size) (drop (cells roff) (bo_data rbo)) in
          let store := list_inserts (cells woff) chunk (bo_data wbo) in
          with_buffers
            (insert wn (mkBufferObject store (bo_usage wbo) (bo_mapped wbo)))
            w
    | _, _ => w
    end).

(** A pointer returned by [glMapBuffer]: [None] is the null pointer,
    [Some name] points to the first byte of the mapped store of [name]. *)
Definition mapped_ptr := option N.

(** [glMapBuffer(target, access)]: maps the whole bound store.  Returns the
    null pointer ([GL_INVALID_OPERATION]) when nothing is bound or the store
    is mapped already. *)
Definition glMapBuffer (t : Target) (access : Access) : GL mapped_ptr := λ w,
  let name := binding t w in
  match gl_buffers w !! name with
  | Some bo =>
      if (name =? 0) || bool_decide (is_Some (bo_mapped bo))
      then Done (None, w)
      else Done (Some name,
                 with_buffers
                   (insert name (mkBufferObject (bo_data bo) (bo_usage bo)
                                   (Some access))) w)
  | None => Done (None, w)
  end.

(** [glUnmapBuffer(target)]: ends the mapping of the bound store.  Returns
    [GL_FALSE] when the store is not mapped ([GL_INVALID_OPERATION]), and
    when the driver reports that the store was lost while it was mapped; its
    content is unspecified then. *)
Definition glUnmapBuffer (t : Target) : GL bool := λ w,
  let name := binding t w in
  match gl_buffers w !! name with
  | Some bo =>
      if (name =? 0) || negb (bool_decide (is_Some (bo_mapped bo)))
      then Done (false, w)
      else
        let kept := head (gl_unmap_script w) ≠ Some false in
        let store :=
          if bool_decide kept then bo_data bo
          else replicate (length (bo_data bo)) None in
        Done (bool_decide kept,
              with_unmap_script (tail (gl_unmap_script w))
                (with_buffers
                   (insert name (mkBufferObject store (bo_usage bo) None))
                   w))
  | None => Done (false, w)
  end.

(** [std::memcpy(destination, source, n)] between two mapped stores.
    Undefined when a pointer is null or no longer mapped, when the
    destination is not mapped for writing or the source for reading, when
    [n] bytes are not there on either side, or when the regions overlap. *)
Definition memcpy (destination source : mapped_ptr) (n : N) : GL unit := λ w,
  match destination, source with
  | Some d, Some s =>
      match gl_buffers w !! d, gl_buffers w !! s with
      | Some dbo, Some sbo =>
          let k := cells (Z.of_N n) in
          if bool_decide (bo_mapped dbo = Some GL_WRITE_ONLY)
             && bool_decide (bo_mapped sbo = Some GL_READ_ONLY)
             && bool_decide (k ≤ length (bo_data dbo))%nat
             && bool_decide (k ≤ length (bo_data sbo))%nat
             && negb (d =? s)
          then
            let store := list_inserts 0 (take k (bo_data sbo)) (bo_data dbo) in
            Done (tt, with_buffers
                        (insert d (mkBufferObject store (bo_usage dbo)
                                     (bo_mapped dbo))) w)
          else Undefined
      | _, _ => Undefined
      end
  | _, _ => Undefined
  end.

(** [glDeleteBuffers(1, &name)] *)
Definition glDeleteBuffers (name : N) : GL unit :=
  gl_modify (λ w,
    let unbind t w := if binding t w =? name then with_binding t 0 w else w in
    with_buffers (delete name)
      (unbind GL_ELEMENT_ARRAY_BUFFER
         (unbind GL_COPY_READ_BUFFER (unbind GL_COPY_WRITE_BUFFER w)))).

(** ** IndexBuffer.cpp *)

Definition usageToGlEnum (usage : Usage) : GLenum_usage :=
  match usage with
  | Static => GL_STATIC_DRAW
  | Dynamic => GL_DYNAMIC_DRAW
  | _ => GL_STREAM_DRAW
  end.

(** [IndexBuffer::IndexBuffer()] *)
Definition IndexBuffer_default : IndexBuffer := mkIndexBuffer 0 0 Stream.

(** [IndexBuffer::IndexBuffer(Usage usage)] *)
Definition IndexBuffer_usage (usage : Usage) : IndexBuffer :=
  mkIndexBuffer 0 0 usage.

(** [IndexBuffer::isAvailable()] *)
Definition isAvailable : bool := true.

(** [IndexBuffer::~IndexBuffer()] *)
Definition destroy (this : IndexBuffer) : GL unit :=
  if negb (m_buffer this =? 0) then glDeleteBuffers (m_buffer this)
  else mret tt.

(** [bool IndexBuffer::create(std::size_t indexCount)] *)
Definition create (this : IndexBuffer) (indexCount : N)
    : GL (bool * IndexBuffer) :=
  if negb isAvailable then mret (false, this) else
  this ← (if m_buffer this =? 0
          then name ← glGenBuffers; mret (with_buffer name this)
          else mret this);
  if m_buffer this =? 0 then
    err "Could not create index buffer, generation failed" ;;
    mret (false, this)
  else
    glBindBuffer GL_ELEMENT_ARRAY_BUFFER (m_buffer this) ;;
    glBufferData GL_ELEMENT_ARRAY_BUFFER
      (to_GLsizeiptr (size_t_wrap (sizeof_GLuint * indexCount)))
      (usageToGlEnum (m_usage this)) ;;
    glBindBuffer GL_ELEMENT_ARRAY_BUFFER 0 ;;
    mret (true, with_size indexCount this).

(** [std::size_t IndexBuffer::getIndexCount() const] *)
Definition getIndexCount (this : IndexBuffer) : N := m_size this.

(** [bool IndexBuffer::update(const GLuint* indices, std::size_t indexCount,
    unsigned int offset)].  [offset + indexCount] and the two products with
    [sizeof(GLuint)] are computed in [std::size_t]. *)
Definition update (this : IndexBuffer) (indices : GLuint_ptr)
    (indexCount : N) (offset : N) : GL (bool * IndexBuffer) :=
  (* Sanity checks *)
  if m_buffer this =? 0 then mret (false, this) else
  if negb (bool_decide (is_Some indices)) then mret (false, this) else
  if negb (offset =? 0) && (m_size this <? size_t_wrap (offset + indexCount))
  then mret (false, this) else
  glBindBuffer GL_ELEMENT_ARRAY_BUFFER (m_buffer this) ;;
  (* Check if we need to resize or orphan the buffer *)
  this ← (if m_size this <=? indexCount then
            glBufferData GL_ELEMENT_ARRAY_BUFFER
              (to_GLsizeiptr (size_t_wrap (sizeof_GLuint * indexCount)))
              (usageToGlEnum (m_usage this)) ;;
            mret (with_size indexCount this)
          else mret this);
  glBufferSubData GL_ELEMENT_ARRAY_BUFFER
    (to_GLsizeiptr (size_t_wrap (sizeof_GLuint * offset)))
    (to_GLsizeiptr (size_t_wrap (sizeof_GLuint * indexCount)))
    indices ;;
  glBindBuffer GL_ELEMENT_ARRAY_BUFFER 0 ;;
  mret (true, this).

(** [bool IndexBuffer::update(const GLuint* indices)] *)
Definition update_all (this : IndexBuffer) (indices : GLuint_ptr)
    : GL (bool * IndexBuffer) :=
  update this indices (m_size this) 0.

(** [void IndexBuffer::swap(IndexBuffer& right)]: the new [*this] and the
    new [right]. *)
Definition swap (this right : IndexBuffer) : IndexBuffer * IndexBuffer :=
  (mkIndexBuffer (m_buffer right) (m_size right) (m_usage right),
   mkIndexBuffer (m_buffer this) (m_size this) (m_usage this)).

(** [unsigned int IndexBuffer::getNativeHandle() const] *)
Definition getNativeHandle (this : IndexBuffer) : N := m_buffer this.

(** [void IndexBuffer::setUsage(Usage usage)] *)
Definition setUsage (this : IndexBuffer) (usage : Usage) : IndexBuffer :=
  with_usage usage this.

(** [Usage IndexBuffer::getUsage() const] *)
Definition getUsage (this : IndexBuffer) : Usage := m_usage this.

(** [static void IndexBuffer::bind(const IndexBuffer* indexBuffer)] *)
Definition bind (indexBuffer : option IndexBuffer) : GL unit :=
  if negb isAvailable then mret tt else
  glBindBuffer GL_ELEMENT_ARRAY_BUFFER
    (match indexBuffer with Some b => m_buffer b | None => 0 end).

Section Build.

(** Whether the library is compiled with [SFML_OPENGL_ES] defined. *)
Variable SFML_OPENGL_ES : bool.

(** [bool IndexBuffer::update(const IndexBuffer& indexBuffer)] *)
Definition update_buffer (this indexBuffer : IndexBuffer)
    : GL (bool * IndexBuffer) :=
  if SFML_OPENGL_ES then mret (false, this) else
  if (m_buffer this =? 0) || (m_buffer indexBuffer =? 0)
  then mret (false, this) else
  (* sf::priv::ensureExtensionsInit() fills in GLEXT_copy_buffer *)
  λ w,
  (if GLEXT_copy_buffer w then
    glBindBuffer GL_COPY_READ_BUFFER (m_buffer indexBuffer) ;;
    glBindBuffer GL_COPY_WRITE_BUFFER (m_buffer this) ;;
    glCopyBufferSubData GL_COPY_READ_BUFFER GL_COPY_WRITE_BUFFER 0 0
      (to_GLsizeiptr (size_t_wrap (sizeof_GLuint * m_size indexBuffer))) ;;
    glBindBuffer GL_COPY_WRITE_BUFFER 0 ;;
    glBindBuffer GL_COPY_READ_BUFFER 0 ;;
    mret (true, this)
  else
    glBindBuffer GL_ELEMENT_ARRAY_BUFFER (m_buffer this) ;;
    glBufferData GL_ELEMENT_ARRAY_BUFFER
      (to_GLsizeiptr (size_t_wrap (sizeof_GLuint * m_size indexBuffer)))
      (usageToGlEnum (m_usage this)) ;;
    destination ← glMapBuffer GL_ELEMENT_ARRAY_BUFFER GL_WRITE_ONLY;
    glBindBuffer GL_ELEMENT_ARRAY_BUFFER (m_buffer indexBuffer) ;;
    source ← glMapBuffer GL_ELEMENT_ARRAY_BUFFER GL_READ_ONLY;
    memcpy destination source
      (size_t_wrap (sizeof_GLuint * m_size indexBuffer)) ;;
    sourceResult ← glUnmapBuffer GL_ELEMENT_ARRAY_BUFFER;
    glBindBuffer GL_ELEMENT_ARRAY_BUFFER (m_buffer this) ;;
    destinationResult ← glUnmapBuffer GL_ELEMENT_ARRAY_BUFFER;
    glBindBuffer GL_ELEMENT_ARRAY_BUFFER 0 ;;
    if negb sourceResult || negb destinationResult
    then mret (false, this)
    else mret (true, this)) w.

(** [IndexBuffer::IndexBuffer(const IndexBuffer& copy)] *)
Definition IndexBuffer_copy (copy : IndexBuffer) : GL IndexBuffer :=
  let this := mkIndexBuffer 0 0 (m_usage copy) in
  if negb (m_buffer copy =? 0) && negb (m_size copy =? 0) then
    '(created, this) ← create this (m_size copy);
    if negb created then
      err "Could not create index buffer for copying" ;;
      mret this
    else
      '(updated, this) ← update_buffer this copy;
      (if negb updated then err "Could not copy index buffer"
       else mret tt) ;;
      mret this
  else mret this.

(** [IndexBuffer& IndexBuffer::operator =(const IndexBuffer& right)]: the
    temporary takes the old members in [swap] and is destroyed on return. *)
Definition assign (this right : IndexBuffer) : GL IndexBuffer :=
  temp ← IndexBuffer_copy right;
  let '(this, temp) := swap this temp in
  destroy temp ;;
  mret this.

End Build.

(** ** Ownership of a device store *)

(** [this] owns the buffer object [bo] of the driver: its handle is not
    empty and names [bo], whose store holds exactly [m_size] indices, is not
    mapped, and has a byte size that fits [GLsizeiptr]. *)
Definition allocated (w : World) (this : IndexBuffer) (bo : BufferObject)
    : Prop :=
  m_buffer this ≠ 0 ∧
  gl_buffers w !! m_buffer this = Some bo ∧
  bo_mapped bo = None ∧
  N.of_nat (length (bo_data bo)) = m_size this ∧
  (store_bytes bo ≤ PTRDIFF_MAX)%Z.

(** ** Driver states of the examples *)

(** A driver without buffer objects; [copy_buffer] tells whether it has the
    fast-copy capability. *)
Definition blank (copy_buffer : bool) : World :=
  mkWorld ∅ 0 0 0 copy_buffer [] [] [].

(** A driver holding the listed buffer objects, nothing bound. *)
Definition holding (bufs : list (N * BufferObject)) (copy_buffer : bool)
    : World :=
  mkWorld (list_to_map bufs) 0 0 0 copy_buffer [] [] [].

(** An unmapped store holding the indices [l]. *)
Definition indices_of (l : list N) (usage : GLenum_usage) : BufferObject :=
  mkBufferObject (Some <$> l) usage None.

(** An unmapped store of [n] indices that were never written. *)
Definition unwritten (n : nat) (usage : GLenum_usage) : BufferObject :=
  mkBufferObject (replicate n None) usage None.

(** ** What a run of driver calls leaves alone *)

(** From [w] to [w'] only the buffer objects named in [names] may have
    changed; the error stream and the capability are as before. *)
Definition same_but (names : list N) (w w' : World) : Prop :=
  (∀ name, name ∉ names → gl_buffers w' !! name = gl_buffers w !! name) ∧
  err_stream w' = err_stream w ∧
  GLEXT_copy_buffer w' = GLEXT_copy_buffer w.

(** All three binding points are as before. *)
Definition same_bindings (w w' : World) : Prop :=
  ∀ t, binding t w' = binding t w.

(** Unfolds the monad down to the matches on outcomes. *)
Ltac gl_unfold :=
  unfold mbind, gl_mbind, gl_bind, mret, gl_mret, gl_ret, err, gl_modify in *.

(** * Properties *)

(** ** Arithmetic of the byte sizes *)

Lemma size_t_wrap_small (n : N) : n ≤ SIZE_MAX → size_t_wrap n = n.
Proof. unfold size_t_wrap, SIZE_MAX. intros H. apply N.mod_small. lia. Qed.

Lemma to_GLsizeiptr_small (n : N) :
  (Z.of_N n ≤ PTRDIFF_MAX)%Z → to_GLsizeiptr (size_t_wrap n) = Z.of_N n.
Proof.
  unfold to_GLsizeiptr, PTRDIFF_MAX. intros H.
  assert (Hw : size_t_wrap n = n)
    by (apply size_t_wrap_small; unfold SIZE_MAX; lia).
  rewrite !Hw. destruct (Z.leb_spec (Z.of_N n) (2 ^ 63 - 1)); [done | lia].
Qed.

Lemma cells_indices (n : N) : cells (Z.of_N (sizeof_GLuint * n)) = N.to_nat n.
Proof.
  unfold cells, sizeof_GLuint.
  replace (Z.of_N (4 * n)) with (Z.of_N n * 4)%Z by lia.
  rewrite Z.div_mul by lia. lia.
Qed.

Lemma readable_bytes indices n :
  readable indices n → (Z.of_N (sizeof_GLuint * n) ≤ PTRDIFF_MAX)%Z.
Proof. intros (arr & _ & Hn & Hb). unfold sizeof_GLuint in *. lia. Qed.

(** ** Lists written in place *)

Lemma list_inserts_all {A} (k l : list A) :
  length k = length l → list_inserts 0 k l = k.
Proof.
  intros Hlen. apply list_eq. intros i.
  destruct (decide (i < length k)%nat) as [Hi|Hi].
  - rewrite list_lookup_inserts by lia. f_equal. lia.
  - rewrite list_lookup_inserts_ge by lia.
    rewrite !lookup_ge_None_2; [done|lia..].
Qed.

(** ** The driver state after each call *)

Lemma gl_buffers_with_binding t name w :
  gl_buffers (with_binding t name w) = gl_buffers w.
Proof. by destruct t. Qed.

Lemma binding_with_binding t name w : binding t (with_binding t name w) = name.
Proof. by destruct t. Qed.

Lemma binding_with_binding_ne t t' name w :
  t ≠ t' → binding t' (with_binding t name w) = binding t' w.
Proof. by destruct t, t'. Qed.

Lemma gl_buffers_with_buffers f w :
  gl_buffers (with_buffers f w) = f (gl_buffers w).
Proof. done. Qed.

Lemma binding_with_buffers t f w : binding t (with_buffers f w) = binding t w.
Proof. by destruct t. Qed.

Lemma gl_buffers_with_unmap_script s w :
  gl_buffers (with_unmap_script s w) = gl_buffers w.
Proof. done. Qed.

Lemma binding_with_unmap_script t s w :
  binding t (with_unmap_script s w) = binding t w.
Proof. by destruct t. Qed.

Lemma gl_unmap_script_with_buffers f w :
  gl_unmap_script (with_buffers f w) = gl_unmap_script w.
Proof. done. Qed.

Lemma gl_unmap_script_with_binding t name w :
  gl_unmap_script (with_binding t name w) = gl_unmap_script w.
Proof. by destruct t. Qed.

Lemma gl_unmap_script_with_unmap_script s w :
  gl_unmap_script (with_unmap_script s w) = s.
Proof. done. Qed.

Create Rewrite HintDb world.
#[global] Hint Rewrite gl_buffers_with_binding binding_with_binding
  gl_buffers_with_buffers binding_with_buffers
  gl_buffers_with_unmap_script binding_with_unmap_script
  gl_unmap_script_with_buffers gl_unmap_script_with_binding
  gl_unmap_script_with_unmap_script : world.

Lemma ensure_object_present name w :
  name = 0 ∨ is_Some (gl_buffers w !! name) → ensure_object name w = w.
Proof.
  unfold ensure_object. intros [->|H]; [done|].
  by rewrite (bool_decide_eq_true_2 _ H), orb_true_r.
Qed.

Lemma ensure_object_lookup name w :
  name ≠ 0 → is_Some (gl_buffers (ensure_object name w) !! name).
Proof.
  intros Hn. unfold ensure_object.
  destruct (N.eqb_spec name 0) as [|_]; [done|]. cbn.
  case_bool_decide as H; [done|].
  rewrite gl_buffers_with_buffers, lookup_insert_eq. by eexists.
Qed.

Lemma ensure_object_lookup_ne name name' w :
  name ≠ name' →
  gl_buffers (ensure_object name w) !! name' = gl_buffers w !! name'.
Proof.
  intros Hn. unfold ensure_object. case_match; [done|].
  by rewrite gl_buffers_with_buffers, lookup_insert_ne.
Qed.

Lemma binding_ensure_object t name w :
  binding t (ensure_object name w) = binding t w.
Proof. unfold ensure_object. case_match; [done|]. by destruct t. Qed.

Lemma gl_bind_Done {A B} (m : GL A) (k : A → GL B) w a w' :
  m w = Done (a, w') → (m ≫= k) w = k a w'.
Proof. unfold mbind, gl_mbind, gl_bind. by intros ->. Qed.

Lemma gl_bind_inv {A B} (m : GL A) (k : A → GL B) w b w2 :
  (m ≫= k) w = Done (b, w2) →
  ∃ a w1, m w = Done (a, w1) ∧ k a w1 = Done (b, w2).
Proof.
  unfold mbind, gl_mbind, gl_bind.
  destruct (m w) as [[a w1]|]; [eauto|done].
Qed.

Lemma glBindBuffer_run t name w :
  glBindBuffer t name w = Done (tt, with_binding t name (ensure_object name w)).
Proof. done. Qed.

Lemma glBufferData_run t size usage name w :
  binding t w = name → name ≠ 0 → is_Some (gl_buffers w !! name) →
  (0 ≤ size)%Z →
  glBufferData t size usage w
    = Done (tt, with_buffers
                  (insert name (mkBufferObject (replicate (cells size) None)
                                  usage None)) w).
Proof.
  intros <- Hn [bo Hbo] Hsize. unfold glBufferData, gl_modify. rewrite Hbo.
  apply N.eqb_neq in Hn. rewrite Hn.
  by destruct (Z.ltb_spec size 0); [lia|].
Qed.

Lemma glBufferSubData_run t offset size arr name bo w :
  binding t w = name → name ≠ 0 → gl_buffers w !! name = Some bo →
  bo_mapped bo = None →
  (0 ≤ offset)%Z → (0 ≤ size)%Z → (offset + size ≤ store_bytes bo)%Z →
  (cells size ≤ length arr)%nat →
  glBufferSubData t offset size (Some arr) w
    = Done (tt, with_buffers
                  (insert name
                     (mkBufferObject
                        (list_inserts (cells offset)
                           (Some <$> take (cells size) arr) (bo_data bo))
                        (bo_usage bo) None)) w).
Proof.
  intros <- Hn Hbo Hmap Hoff Hsize Hend Harr. unfold glBufferSubData.
  rewrite Hbo, Hmap. apply N.eqb_neq in Hn. rewrite Hn.
  destruct (Z.ltb_spec offset 0); [lia|].
  destruct (Z.ltb_spec size 0); [lia|].
  destruct (Z.ltb_spec (store_bytes bo) (offset + size)); [lia|].
  cbn. by rewrite bool_decide_eq_true_2.
Qed.

(** ** The argument checks of [update] *)

Lemma update_rejects this indices indexCount offset w :
  m_buffer this = 0 ∨ indices = None ∨
    (offset ≠ 0 ∧ m_size this < size_t_wrap (offset + indexCount)) →
  update this indices indexCount offset w = Done (false, this, w).
Proof.
  intros H. unfold update. gl_unfold.
  destruct (N.eqb_spec (m_buffer this) 0) as [|Hb]; [done|].
  destruct indices as [arr|]; [|done]. cbn.
  destruct H as [?|[?|[Ho Hlt]]]; [done..|].
  destruct (N.eqb_spec offset 0) as [|_]; [done|].
  apply N.ltb_lt in Hlt. by rewrite Hlt.
Qed.

Lemma update_members this indices indexCount offset w r this' w' :
  update this indices indexCount offset w = Done (r, this', w') →
  this' = this ∨ (m_size this ≤ indexCount ∧ this' = with_size indexCount this).
Proof.
  unfold update. gl_unfold. intros H.
  repeat (case_match; simplify_eq/=); auto.
  all: right; (split; [by apply N.leb_le|done]).
Qed.

(** Past the argument checks, [update] is the sequence of driver calls. *)
Lemma update_accepted this arr indexCount offset :
  m_buffer this ≠ 0 →
  offset = 0 ∨ size_t_wrap (offset + indexCount) ≤ m_size this →
  update this (Some arr) indexCount offset =
    (glBindBuffer GL_ELEMENT_ARRAY_BUFFER (m_buffer this) ;;
     this ← (if m_size this <=? indexCount then
               glBufferData GL_ELEMENT_ARRAY_BUFFER
                 (to_GLsizeiptr (size_t_wrap (sizeof_GLuint * indexCount)))
                 (usageToGlEnum (m_usage this)) ;;
               mret (with_size indexCount this)
             else mret this);
     glBufferSubData GL_ELEMENT_ARRAY_BUFFER
       (to_GLsizeiptr (size_t_wrap (sizeof_GLuint * offset)))
       (to_GLsizeiptr (size_t_wrap (sizeof_GLuint * indexCount)))
       (Some arr) ;;
     glBindBuffer GL_ELEMENT_ARRAY_BUFFER 0 ;;
     mret (true, this)).
Proof.
  intros Hb Hrange. unfold update.
  destruct (N.eqb_spec (m_buffer this) 0) as [|_]; [done|]. cbn.
  destruct Hrange as [->|Hle]; [done|].
  destruct (N.ltb_spec (m_size this) (size_t_wrap (offset + indexCount)));
    [lia|].
  by rewrite andb_false_r.
Qed.

(** The offset-0 update that does not fit: the store is replaced by one
    holding exactly the indices read at [indices]. *)
Lemma update_orphan_run this indices indexCount w :
  m_buffer this ≠ 0 →
  readable indices indexCount →
  m_size this ≤ indexCount →
  ∃ arr w',
    indices = Some arr ∧
    update this indices indexCount 0 w
      = Done (true, with_size indexCount this, w') ∧
    gl_buffers w' !! m_buffer this
      = Some (mkBufferObject (Some <$> take (N.to_nat indexCount) arr)
                (usageToGlEnum (m_usage this)) None) ∧
    (∀ name, name ≠ m_buffer this →
       gl_buffers w' !! name = gl_buffers w !! name).
Proof.
  intros Hb Hr Hle. pose proof (readable_bytes _ _ Hr) as Hbytes.
  destruct Hr as (arr & -> & Hn & Harr). exists arr.
  rewrite update_accepted by auto.
  apply N.leb_le in Hle. rewrite Hle.
  rewrite (to_GLsizeiptr_small (sizeof_GLuint * indexCount)) by done.
  rewrite (to_GLsizeiptr_small (sizeof_GLuint * 0)) by done.
  set (w1 := with_binding GL_ELEMENT_ARRAY_BUFFER (m_buffer this)
               (ensure_object (m_buffer this) w)).
  set (bo := mkBufferObject
               (replicate (cells (Z.of_N (sizeof_GLuint * indexCount))) None)
               (usageToGlEnum (m_usage this)) None).
  set (w2 := with_buffers (insert (m_buffer this) bo) w1).
  eexists. split; [done|].
  rewrite (gl_bind_Done _ _ _ _ _ (glBindBuffer_run _ _ _)). fold w1.
  assert (Hbind1 : binding GL_ELEMENT_ARRAY_BUFFER w1 = m_buffer this)
    by apply binding_with_binding.
  assert (Hobj : is_Some (gl_buffers w1 !! m_buffer this)).
  { unfold w1. rewrite gl_buffers_with_binding.
    by apply ensure_object_lookup. }
  erewrite gl_bind_Done; last first.
  { erewrite gl_bind_Done; [done|]. apply glBufferData_run; eauto. lia. }
  fold bo w2.
  erewrite gl_bind_Done; last first.
  { eapply (glBufferSubData_run _ _ _ _ (m_buffer this) bo); try done.
    - unfold w2. by rewrite gl_buffers_with_buffers, lookup_insert_eq.
    - lia.
    - unfold store_bytes, bo. cbn. rewrite length_replicate, cells_indices.
      unfold sizeof_GLuint. lia.
    - rewrite cells_indices. lia. }
  rewrite (gl_bind_Done _ _ _ _ _ (glBindBuffer_run _ _ _)).
  split; [done|].
  rewrite gl_buffers_with_binding, ensure_object_present by auto.
  rewrite gl_buffers_with_buffers. unfold w2. rewrite gl_buffers_with_buffers.
  split.
  - rewrite lookup_insert_eq. do 2 f_equal. unfold bo. cbn.
    rewrite !cells_indices. apply list_inserts_all.
    rewrite length_fmap, length_take, length_replicate. lia.
  - intros name Hne. rewrite !lookup_insert_ne by done.
    unfold w1. rewrite gl_buffers_with_binding.
    by apply ensure_object_lookup_ne.
Qed.

(** ** Buffer-to-buffer copy *)

Lemma update_buffer_members es this other w r this' w' :
  update_buffer es this other w = Done (r, this', w') → this' = this.
Proof.
  unfold update_buffer. intros H.
  destruct es; [by gl_unfold; simplify_eq|].
  destruct ((m_buffer this =? 0) || (m_buffer other =? 0));
    [by gl_unfold; simplify_eq|].
  destruct (GLEXT_copy_buffer w).
  - unfold glBindBuffer, glCopyBufferSubData in H. gl_unfold. by simplify_eq.
  - repeat (apply gl_bind_inv in H as (? & ? & _ & H)).
    destruct (_ || _); gl_unfold; by simplify_eq.
Qed.

Lemma glCopyBufferSubData_run rt wt size rn wn rbo wbo w :
  binding rt w = rn → binding wt w = wn → rn ≠ 0 → wn ≠ 0 → rn ≠ wn →
  gl_buffers w !! rn = Some rbo → gl_buffers w !! wn = Some wbo →
  bo_mapped rbo = None → bo_mapped wbo = None →
  (0 ≤ size)%Z → (size ≤ store_bytes rbo)%Z → (size ≤ store_bytes wbo)%Z →
  glCopyBufferSubData rt wt 0 0 size w
    = Done (tt, with_buffers
                  (insert wn
                     (mkBufferObject
                        (list_inserts 0 (take (cells size) (bo_data rbo))
                           (bo_data wbo))
                        (bo_usage wbo) None)) w).
Proof.
  intros <- <- Hr Hw Hne Hrbo Hwbo Hrm Hwm Hsize Hrs Hws.
  unfold glCopyBufferSubData, gl_modify. rewrite Hrbo, Hwbo, Hrm, Hwm.
  apply N.eqb_neq in Hr, Hw, Hne. rewrite Hr, Hw, Hne. cbn.
  rewrite !Z.add_0_l.
  destruct (Z.ltb_spec size 0); [lia|].
  destruct (Z.ltb_spec (store_bytes rbo) size); [lia|].
  destruct (Z.ltb_spec (store_bytes wbo) size); [lia|].
  by change (cells 0) with 0%nat.
Qed.

Lemma glMapBuffer_run t access name bo w :
  binding t w = name → name ≠ 0 → gl_buffers w !! name = Some bo →
  bo_mapped bo = None →
  glMapBuffer t access w
    = Done (Some name,
            with_buffers
              (insert name (mkBufferObject (bo_data bo) (bo_usage bo)
                              (Some access))) w).
Proof.
  intros <- Hn Hbo Hmap. unfold glMapBuffer. rewrite Hbo, Hmap.
  apply N.eqb_neq in Hn. by rewrite Hn.
Qed.

Lemma memcpy_run d s n dbo sbo w :
  gl_buffers w !! d = Some dbo → gl_buffers w !! s = Some sbo →
  bo_mapped dbo = Some GL_WRITE_ONLY → bo_mapped sbo = Some GL_READ_ONLY →
  (cells (Z.of_N n) ≤ length (bo_data dbo))%nat →
  (cells (Z.of_N n) ≤ length (bo_data sbo))%nat →
  d ≠ s →
  memcpy (Some d) (Some s) n w
    = Done (tt, with_buffers
                  (insert d
                     (mkBufferObject
                        (list_inserts 0 (take (cells (Z.of_N n)) (bo_data sbo))
                           (bo_data dbo))
                        (bo_usage dbo) (Some GL_WRITE_ONLY))) w).
Proof.
  intros Hd Hs Hdm Hsm Hdl Hsl Hne. unfold memcpy. rewrite Hd, Hs, Hdm, Hsm.
  apply N.eqb_neq in Hne. rewrite Hne.
  by rewrite !bool_decide_eq_true_2.
Qed.

Lemma glUnmapBuffer_run t name bo access w :
  binding t w = name → name ≠ 0 → gl_buffers w !! name = Some bo →
  bo_mapped bo = Some access →
  glUnmapBuffer t w
    = let kept := bool_decide (head (gl_unmap_script w) ≠ Some false) in
      Done (kept,
            with_unmap_script (tail (gl_unmap_script w))
              (with_buffers
                 (insert name
                    (mkBufferObject
                       (if kept then bo_data bo
                        else replicate (length (bo_data bo)) None)
                       (bo_usage bo) None)) w)).
Proof.
  intros <- Hn Hbo Hmap. unfold glUnmapBuffer. rewrite Hbo, Hmap.
  apply N.eqb_neq in Hn. by rewrite Hn.
Qed.

Lemma glBindBuffer_present t name w :
  name = 0 ∨ is_Some (gl_buffers w !! name) →
  glBindBuffer t name w = Done (tt, with_binding t name w).
Proof. intros H. by rewrite glBindBuffer_run, ensure_object_present. Qed.

Lemma allocated_bytes w this bo :
  allocated w this bo →
  (Z.of_N (sizeof_GLuint * m_size this) ≤ PTRDIFF_MAX)%Z ∧
  store_bytes bo = Z.of_N (sizeof_GLuint * m_size this) ∧
  length (bo_data bo) = N.to_nat (m_size this).
Proof.
  intros (_ & _ & _ & Hlen & Hstore).
  unfold store_bytes, sizeof_GLuint in *. lia.
Qed.


(** The fallback path: the store of [B] is allocated anew with the byte size
    of [A]'s count, both stores are mapped, copied and unmapped.  Nothing is
    asked of the store [B] had. *)
Lemma update_buffer_fallback_run A B boA w :
  allocated w A boA → m_buffer B ≠ 0 → m_buffer A ≠ m_buffer B →
  GLEXT_copy_buffer w = false →
  ∃ r w',
    update_buffer false B A w = Done (r, B, w') ∧
    (r = true →
       allocated w' A boA ∧
       gl_buffers w' !! m_buffer B
         = Some (mkBufferObject (bo_data boA) (usageToGlEnum (m_usage B))
                   None)).
Proof.
  intros HA Hb0 Hne Hcap.
  destruct (allocated_bytes _ _ _ HA) as (HbytesA & HstoreA & HlenA).
  pose proof HA as (Ha0 & HboA & HmapA & HnA & _).
  unfold update_buffer.
  destruct (N.eqb_spec (m_buffer B) 0) as [|_]; [done|].
  destruct (N.eqb_spec (m_buffer A) 0) as [|_]; [done|]. cbn.
  rewrite Hcap.
  rewrite (to_GLsizeiptr_small (sizeof_GLuint * m_size A)) by done.
  rewrite size_t_wrap_small by (unfold SIZE_MAX, PTRDIFF_MAX in *; lia).
  set (n := N.to_nat (m_size A)).
  set (usage := usageToGlEnum (m_usage B)).
  rewrite (gl_bind_Done _ _ _ _ _ (glBindBuffer_run _ _ _)).
  set (w0 := ensure_object (m_buffer B) w).
  assert (HB0 : is_Some (gl_buffers w0 !! m_buffer B))
    by by apply ensure_object_lookup.
  assert (HA0 : gl_buffers w0 !! m_buffer A = Some boA).
  { unfold w0. by rewrite ensure_object_lookup_ne. }
  erewrite gl_bind_Done; last first.
  { apply (glBufferData_run _ _ _ (m_buffer B)); autorewrite with world;
      [done|done|done|lia]. }
  rewrite cells_indices. fold n.
  erewrite gl_bind_Done; last first.
  { eapply (glMapBuffer_run _ _ (m_buffer B)); autorewrite with world;
      [done|done|by rewrite lookup_insert_eq|done]. }
  cbn [bo_data bo_usage].
  erewrite gl_bind_Done; last first.
  { apply glBindBuffer_present. right. autorewrite with world.
    by rewrite !lookup_insert_ne, HA0. }
  erewrite gl_bind_Done; last first.
  { eapply (glMapBuffer_run _ _ (m_buffer A)); autorewrite with world;
      [done|done|by rewrite !lookup_insert_ne|done]. }
  erewrite gl_bind_Done; last first.
  { eapply memcpy_run; autorewrite with world.
    - by rewrite lookup_insert_ne, lookup_insert_eq.
    - by rewrite lookup_insert_eq.
    - done.
    - done.
    - cbn. rewrite cells_indices, length_replicate. done.
    - cbn. rewrite cells_indices. lia.
    - done. }
  cbn [bo_data bo_usage]. rewrite cells_indices. fold n.
  erewrite gl_bind_Done; last first.
  { eapply (glUnmapBuffer_run _ (m_buffer A)); autorewrite with world;
      [done|done|by rewrite lookup_insert_ne, lookup_insert_eq|done]. }
  cbn zeta. cbn [bo_data bo_usage].
  erewrite gl_bind_Done; last first.
  { apply glBindBuffer_present. right. autorewrite with world.
    rewrite lookup_insert_ne, lookup_insert_eq by done. by eexists. }
  erewrite gl_bind_Done; last first.
  { eapply (glUnmapBuffer_run _ (m_buffer B)); autorewrite with world;
      [done|done|by rewrite lookup_insert_ne, lookup_insert_eq|done]. }
  cbn zeta. cbn [bo_data bo_usage].
  erewrite gl_bind_Done; last first.
  { apply glBindBuffer_present. by left. }
  autorewrite with world.
  destruct (bool_decide (head (gl_unmap_script w0) ≠ Some false));
    [|by eexists false, _].
  destruct (bool_decide (head (tail (gl_unmap_script w0)) ≠ Some false));
    [|by eexists false, _].
  eexists true, _. split; [done|]. intros _.
  unfold allocated. autorewrite with world.
  rewrite lookup_insert_eq.
  rewrite lookup_insert_ne, lookup_insert_eq by done.
  assert (mkBufferObject (bo_data boA) (bo_usage boA) None = boA) as ->
    by (destruct boA; by simplify_eq/=).
  split; [by destruct HA as (?&?&?&?&?)|].
  do 2 f_equal. unfold n. rewrite <- HlenA, firstn_all.
  apply list_inserts_all. by rewrite length_replicate.
Qed.

(** [B.update(A)] returns whenever [A] is allocated and [B] is another
    buffer. *)
Lemma update_buffer_defined es A B boA w :
  allocated w A boA → m_buffer A ≠ m_buffer B →
  ∃ r w', update_buffer es B A w = Done (r, B, w').
Proof.
  intros HA Hne.
  destruct es; [by exists false, w|].
  destruct (decide (m_buffer B = 0)) as [Hb|Hb].
  { exists false, w. unfold update_buffer. by rewrite Hb. }
  destruct (GLEXT_copy_buffer w) eqn:Hcap.
  - unfold update_buffer.
    destruct (N.eqb_spec (m_buffer B) 0) as [|_]; [done|].
    destruct (N.eqb_spec (m_buffer A) 0) as [|_]; cbn; [by eauto|].
    rewrite Hcap. unfold glBindBuffer, glCopyBufferSubData. gl_unfold. eauto.
  - destruct (update_buffer_fallback_run A B boA w) as (r & w' & Hrun & _);
      eauto.
Qed.

(** ** Creation and copy construction *)

Lemma create_members this indexCount w created this' w' :
  create this indexCount w = Done (created, this', w') →
  m_usage this' = m_usage this ∧
  if created then m_buffer this' ≠ 0 ∧ m_size this' = indexCount
  else m_buffer this' = 0 ∧ m_size this' = m_size this.
Proof.
  unfold create, glGenBuffers, glBindBuffer, glBufferData. gl_unfold. cbn.
  intros H.
  repeat (case_match; simplify_eq/=); split_and?; try done.
  all: try by apply N.eqb_neq.
  all: try by apply N.eqb_eq.
Qed.

Lemma create_defined this indexCount w :
  ∃ created this' w', create this indexCount w = Done (created, this', w').
Proof.
  unfold create, glGenBuffers, glBindBuffer, glBufferData. gl_unfold. cbn.
  repeat case_match; simplify_eq/=; eauto.
Qed.

Lemma IndexBuffer_copy_unallocated es copy w :
  m_buffer copy = 0 ∨ m_size copy = 0 →
  IndexBuffer_copy es copy w = Done (mkIndexBuffer 0 0 (m_usage copy), w).
Proof.
  intros H. unfold IndexBuffer_copy.
  destruct (N.eqb_spec (m_buffer copy) 0) as [|Hb]; [done|].
  destruct (N.eqb_spec (m_size copy) 0) as [|Hs]; [done|].
  by destruct H.
Qed.

Lemma IndexBuffer_copy_stages es copy w :
  m_buffer copy ≠ 0 → m_size copy ≠ 0 →
  IndexBuffer_copy es copy w =
    ('(created, this) ← create (mkIndexBuffer 0 0 (m_usage copy)) (m_size copy);
     if negb created then
       err "Could not create index buffer for copying" ;;
       mret this
     else
       '(updated, this) ← update_buffer es this copy;
       (if negb updated then err "Could not copy index buffer"
        else mret tt) ;;
       mret this) w.
Proof.
  intros Hb Hs. unfold IndexBuffer_copy.
  destruct (N.eqb_spec (m_buffer copy) 0) as [|_]; [done|].
  by destruct (N.eqb_spec (m_size copy) 0) as [|_].
Qed.

Lemma update_defined this indices indexCount offset w :
  indices = None ∨ readable indices indexCount →
  ∃ r this' w', update this indices indexCount offset w = Done (r, this', w').
Proof.
  intros [->|Hr]; [rewrite update_rejects; eauto|].
  pose proof (readable_bytes _ _ Hr) as Hbytes.
  destruct Hr as (arr & -> & Hn & _).
  unfold update, glBindBuffer, glBufferData, glBufferSubData. gl_unfold.
  rewrite (to_GLsizeiptr_small (sizeof_GLuint * indexCount)) by done.
  rewrite cells_indices. cbn.
  repeat case_match; simplify_eq/=; eauto.
  all: case_bool_decide; [done|lia].
Qed.

(** * The claims *)

(** ** update(data, count, offset) *)



(** C6.  For a buffer that owns a device store of [m_size this] indices, a
    non-null data pointer at which [indexCount] indices can be read, and an
    in-place update (offset 0 with [indexCount < m_size this], or a non-zero
    offset with [offset + indexCount <= m_size this]), the call succeeds;
    the cells [offset, offset + indexCount) of the store hold the indices
    read from [data]; every cell outside that range, the usage tag, the size
    of the store, the members of the object and all other buffer objects are
    as before. *)
Theorem update_in_place this indices indexCount offset w bo :
  allocated w this bo →
  readable indices indexCount →
  (offset = 0 ∧ indexCount < m_size this) ∨
    (offset ≠ 0 ∧ offset + indexCount ≤ m_size this) →
  ∃ arr w' bo',
    indices = Some arr ∧
    update this indices indexCount offset w = Done (true, this, w') ∧
    allocated w' this bo' ∧
    bo_usage bo' = bo_usage bo ∧
    (∀ (i : nat) x, (i < N.to_nat indexCount)%nat → arr !! i = Some x →
       bo_data bo' !! (N.to_nat offset + i)%nat = Some (Some x)) ∧
    (∀ j : nat,
       (j < N.to_nat offset ∨ N.to_nat (offset + indexCount) ≤ j)%nat →
       bo_data bo' !! j = bo_data bo !! j) ∧
    (∀ name, name ≠ m_buffer this →
       gl_buffers w' !! name = gl_buffers w !! name).
Proof.
  intros (Hb & Hbo & Hmap & Hlen & Hstore) Hr Hrange.
  pose proof (readable_bytes _ _ Hr) as Hbytes.
  destruct Hr as (arr & -> & Hn & Harr). exists arr.
  assert (indexCount < m_size this ∧ offset + indexCount ≤ m_size this)
    as [Hlt Hsum] by lia.
  unfold store_bytes, PTRDIFF_MAX, sizeof_GLuint in *.
  rewrite update_accepted; [|done|]; last first.
  { right. rewrite size_t_wrap_small; [done|]. unfold SIZE_MAX. lia. }
  destruct (N.leb_spec (m_size this) indexCount) as [|_]; [lia|].
  rewrite (to_GLsizeiptr_small (sizeof_GLuint * indexCount)) by done.
  rewrite (to_GLsizeiptr_small (sizeof_GLuint * offset))
    by (unfold PTRDIFF_MAX, sizeof_GLuint; lia).
  set (w1 := with_binding GL_ELEMENT_ARRAY_BUFFER (m_buffer this)
               (ensure_object (m_buffer this) w)).
  assert (Hw1 : gl_buffers w1 = gl_buffers w).
  { unfold w1.
    by rewrite gl_buffers_with_binding, ensure_object_present by eauto. }
  rewrite (gl_bind_Done _ _ _ _ _ (glBindBuffer_run _ _ _)). fold w1.
  rewrite (gl_bind_Done _ _ _ this w1) by done.
  erewrite gl_bind_Done; last first.
  { eapply (glBufferSubData_run _ _ _ _ (m_buffer this) bo); try done.
    - by rewrite Hw1.
    - lia.
    - lia.
    - unfold store_bytes, sizeof_GLuint. lia.
    - rewrite cells_indices. lia. }
  rewrite (gl_bind_Done _ _ _ _ _ (glBindBuffer_run _ _ _)).
  rewrite !cells_indices.
  eexists _, (mkBufferObject
                (list_inserts (N.to_nat offset)
                   (Some <$> take (N.to_nat indexCount) arr) (bo_data bo))
                (bo_usage bo) None).
  split; [done|]. split; [done|]. unfold allocated.
  rewrite gl_buffers_with_binding, ensure_object_present by auto.
  rewrite gl_buffers_with_buffers, Hw1.
  split; [|split; [done|split; [|split]]].
  - split; [done|]. rewrite lookup_insert_eq. split; [done|]. cbn.
    unfold store_bytes, PTRDIFF_MAX, sizeof_GLuint. cbn.
    by rewrite length_inserts.
  - intros i x Hi Hx. cbn.
    rewrite list_lookup_inserts.
    + replace (N.to_nat offset + i - N.to_nat offset)%nat with i by lia.
      rewrite list_lookup_fmap, lookup_take_lt by lia. by rewrite Hx.
    + rewrite length_fmap, length_take. lia.
    + lia.
  - intros j Hj. cbn. destruct Hj as [Hj|Hj].
    + by rewrite list_lookup_inserts_lt.
    + rewrite list_lookup_inserts_ge; [done|].
      rewrite length_fmap, length_take. lia.
  - intros name Hne. by rewrite lookup_insert_ne.
Qed.

Lemma update_in_place_witness :
  ∃ w', update (mkIndexBuffer 1 4 Stream) (Some [8; 9]) 2 1
          (holding [(1, indices_of [1; 2; 3; 4] GL_STREAM_DRAW)] true)
        = Done (true, mkIndexBuffer 1 4 Stream, w') ∧
        gl_buffers w' !! 1 = Some (indices_of [1; 8; 9; 4] GL_STREAM_DRAW).
Proof.
  destruct (update_in_place (mkIndexBuffer 1 4 Stream) (Some [8; 9]) 2 1
              (holding [(1, indices_of [1; 2; 3; 4] GL_STREAM_DRAW)] true)
              (indices_of [1; 2; 3; 4] GL_STREAM_DRAW))
    as (arr & w' & bo' & _ & Hrun & _).
  - unfold allocated. by split_and!.
  - exists [8; 9]. split_and!; [done|simpl; lia|done].
  - right. split; [done|]. simpl. lia.
  - exists w'. vm_compute in Hrun. injection Hrun as <-. by vm_compute.
Defined.

(** C7.  Whatever a call [update(data, count, offset)] returns, success or
    failure, the capacity [getIndexCount] after the call is at least the
    capacity before it; and the call does return whenever the data pointer
    is null or [count] indices can be read at it. *)
Theorem update_capacity_monotone this indices indexCount offset w :
  (∀ r this' w',
     update this indices indexCount offset w = Done (r, this', w') →
     getIndexCount this ≤ getIndexCount this') ∧
  (indices = None ∨ readable indices indexCount →
   ∃ r this' w', update this indices indexCount offset w = Done (r, this', w')).
Proof.
  split.
  - intros r this' w' H. unfold getIndexCount.
    apply update_members in H as [->|[Hle ->]]; [done|]. by cbn.
  - apply update_defined.
Qed.

Lemma update_capacity_monotone_witness :
  getIndexCount (mkIndexBuffer 1 2 Dynamic)
    ≤ getIndexCount (mkIndexBuffer 1 3 Dynamic).
Proof.
  apply (proj1 (update_capacity_monotone (mkIndexBuffer 1 2 Dynamic)
                  (Some [5; 6; 7]) 3 0
                  (holding [(1, indices_of [1; 2] GL_DYNAMIC_DRAW)] true))
           true (mkIndexBuffer 1 3 Dynamic)
           (holding [(1, indices_of [5; 6; 7] GL_DYNAMIC_DRAW)] true)).
  vm_compute. reflexivity.
Defined.

(** C5.  The call [update(data, SIZE_MAX, 1)] on a buffer of capacity 10 has
    a non-zero offset and [offset + count = 2^64 > 10], yet it is not
    rejected: the sum is computed in [std::size_t] and wraps to 0.  The
    call returns success and the cached capacity becomes [SIZE_MAX]. *)
Theorem update_range_check_wraps :
  let this := mkIndexBuffer 1 10 Stream in
  let w := holding [(1, unwritten 10 GL_STREAM_DRAW)] true in
  (1 ≠ 0 ∧ m_size this < 1 + SIZE_MAX) ∧
  size_t_wrap (1 + SIZE_MAX) = 0 ∧
  update this (Some [7]) SIZE_MAX 1 w
    = Done (true, mkIndexBuffer 1 SIZE_MAX Stream, w).
Proof. by vm_compute. Qed.

(** What the argument checks of [update] do reject, with the sum of the
    range check as the code computes it: the call fails and nothing
    changes, neither in the object nor in the driver. *)
Lemma update_rejected_no_effect this indices indexCount offset w :
  m_buffer this = 0 ∨ indices = None ∨
    (offset ≠ 0 ∧ offset + indexCount ≤ SIZE_MAX ∧
     m_size this < offset + indexCount) →
  update this indices indexCount offset w = Done (false, this, w).
Proof.
  intros H. apply update_rejects.
  destruct H as [?|[?|(Ho & Hmax & Hlt)]]; auto.
  right. right. by rewrite size_t_wrap_small.
Qed.

(** C9.  The call [update(data, SIZE_MAX - 1, 4)] on a buffer of capacity 10
    has a non-zero offset, passes the range check as the code computes it
    ([4 + (SIZE_MAX - 1)] wraps to 2), and has [count >= capacity]: the
    resize branch runs and assigns the count to [m_size]. *)
Theorem update_resize_branch_at_offset :
  let this := mkIndexBuffer 1 10 Stream in
  let w := holding [(1, unwritten 10 GL_STREAM_DRAW)] true in
  let count := SIZE_MAX - 1 in
  (negb (4 =? 0) && (m_size this <? size_t_wrap (4 + count)) = false) ∧
  (m_size this <=? count) = true ∧
  update this (Some [7]) count 4 w = Done (true, with_size count this, w).
Proof. by vm_compute. Qed.

(** Without wrap-around a non-zero offset never reaches the resize branch:
    the update that passes the range check leaves [m_size] alone. *)
Lemma update_nonzero_offset_keeps_size
    this indices indexCount offset w r this' w' :
  offset ≠ 0 → offset + indexCount ≤ SIZE_MAX →
  update this indices indexCount offset w = Done (r, this', w') →
  this' = this.
Proof.
  intros Ho Hmax H.
  destruct (decide (m_size this < offset + indexCount)) as [Hlt|Hge].
  - rewrite update_rejected_no_effect in H by auto. by simplify_eq.
  - apply update_members in H as [->|[Hle ->]]; [done|lia].
Qed.

(** ** create(0) followed by an update *)

(** C1 as stated fails: after a successful [create(0)] an update at offset 0
    succeeds and gives the buffer three indices. *)
Lemma create_zero_then_update_succeeds :
  create IndexBuffer_default 0 (blank true)
    = Done (true, mkIndexBuffer 1 0 Stream,
            holding [(1, unwritten 0 GL_STREAM_DRAW)] true) ∧
  update (mkIndexBuffer 1 0 Stream) (Some [5; 6; 7]) 3 0
      (holding [(1, unwritten 0 GL_STREAM_DRAW)] true)
    = Done (true, mkIndexBuffer 1 3 Stream,
            holding [(1, indices_of [5; 6; 7] GL_STREAM_DRAW)] true).
Proof. by vm_compute. Qed.

(** What a successful [create] leaves in the driver under its handle. *)
Lemma create_store_inv this indexCount w this' w' :
  create this indexCount w = Done (true, this', w') →
  (Z.of_N (sizeof_GLuint * indexCount) ≤ PTRDIFF_MAX)%Z →
  gl_buffers w' !! m_buffer this'
    = Some (unwritten (N.to_nat indexCount) (usageToGlEnum (m_usage this'))).
Proof.
  unfold create. cbn [isAvailable negb]. intros H Hbytes.
  apply gl_bind_inv in H as (this1 & w1 & _ & H).
  destruct (N.eqb_spec (m_buffer this1) 0) as [|Hb].
  { apply gl_bind_inv in H as (? & ? & _ & H). gl_unfold. by simplify_eq. }
  rewrite (to_GLsizeiptr_small (sizeof_GLuint * indexCount)) in H by done.
  rewrite (gl_bind_Done _ _ _ _ _ (glBindBuffer_run _ _ _)) in H.
  erewrite gl_bind_Done in H; last first.
  { apply (glBufferData_run _ _ _ (m_buffer this1)); [done|done| |lia].
    change (is_Some (gl_buffers (ensure_object (m_buffer this1) w1)
                       !! m_buffer this1)).
    by apply ensure_object_lookup. }
  rewrite (gl_bind_Done _ _ _ _ _ (glBindBuffer_run _ _ _)) in H.
  gl_unfold. simplify_eq. cbn [with_size m_buffer m_usage].
  cbn [gl_buffers]. by rewrite lookup_insert_eq, cells_indices.
Qed.

(** The fast path into a buffer whose store is empty: the call reports
    success and no buffer object of the driver has changed. *)
Lemma update_buffer_fast_into_empty B A usage w :
  m_buffer B ≠ 0 → m_buffer A ≠ 0 →
  GLEXT_copy_buffer w = true →
  gl_buffers w !! m_buffer B = Some (unwritten 0 usage) →
  ∃ w2,
    update_buffer false B A w = Done (true, B, w2) ∧
    (∀ name, is_Some (gl_buffers w !! name) →
       gl_buffers w2 !! name = gl_buffers w !! name).
Proof.
  intros Hb Ha Hcap Hstore. unfold update_buffer.
  destruct (N.eqb_spec (m_buffer B) 0) as [|_]; [done|].
  destruct (N.eqb_spec (m_buffer A) 0) as [|_]; [done|]. cbn.
  rewrite Hcap.
  rewrite (gl_bind_Done _ _ _ _ _ (glBindBuffer_run _ _ _)).
  set (w1 := with_binding GL_COPY_READ_BUFFER (m_buffer A)
               (ensure_object (m_buffer A) w)).
  assert (Hold : ∀ name, is_Some (gl_buffers w !! name) →
                   gl_buffers w1 !! name = gl_buffers w !! name).
  { intros name Hname. unfold w1. autorewrite with world.
    destruct (decide (m_buffer A = name)) as [<-|Hne].
    - rewrite ensure_object_present; [done|]. by right.
    - by rewrite ensure_object_lookup_ne. }
  assert (Hstore1 : gl_buffers w1 !! m_buffer B = Some (unwritten 0 usage)).
  { rewrite Hold; [done|]. by rewrite Hstore. }
  erewrite gl_bind_Done; last first.
  { apply glBindBuffer_present. right. by rewrite Hstore1. }
  set (w2 := with_binding GL_COPY_WRITE_BUFFER (m_buffer B) w1).
  assert (Hcopy : ∃ w3,
    glCopyBufferSubData GL_COPY_READ_BUFFER GL_COPY_WRITE_BUFFER 0 0
      (to_GLsizeiptr (size_t_wrap (sizeof_GLuint * m_size A))) w2
    = Done (tt, w3) ∧
    gl_buffers w3 = gl_buffers w1).
  { unfold glCopyBufferSubData, gl_modify. eexists. split; [done|].
    assert (binding GL_COPY_WRITE_BUFFER w2 = m_buffer B) as -> by done.
    assert (gl_buffers w2 = gl_buffers w1) as Hsame by done.
    rewrite !Hsame, Hstore1.
    repeat case_match; try done.
    autorewrite with world. rewrite Hsame. apply insert_id.
    rewrite Hstore1. unfold unwritten. cbn. f_equal. f_equal.
    symmetry. apply nil_length_inv. by rewrite length_inserts. }
  destruct Hcopy as (w3 & Hrun & Hsame3).
  rewrite (gl_bind_Done _ _ _ _ _ Hrun).
  rewrite (gl_bind_Done _ _ _ _ _ (glBindBuffer_run _ _ _)).
  rewrite (gl_bind_Done _ _ _ _ _ (glBindBuffer_run _ _ _)).
  eexists. split; [done|]. intros name Hname.
  rewrite !ensure_object_present by by left.
  autorewrite with world. rewrite Hsame3. by apply Hold.
Qed.

(** C1, amended.  After a successful [create(0)]:
    - [update(data, count, offset)] with a null data pointer, or with a
      non-zero offset whose sum [offset + count] does not exceed [SIZE_MAX],
      returns failure and changes nothing;
    - [update(data, count, 0)] with a data pointer at which [count] indices
      can be read is not rejected: it returns success, [count] becomes the
      capacity, handle and usage stay, the store of the buffer is replaced by
      one that holds exactly these [count] indices under the tag of the
      current usage, and every other buffer object is as before;
    - [update(data)] with a null pointer returns failure and changes
      nothing; with a non-null pointer it returns success, the members stay,
      the store of the buffer is replaced by an empty one under the tag of
      the current usage, and every other buffer object is as before;
    - [update(otherBuffer)] returns failure and changes nothing in a build
      with [SFML_OPENGL_ES] or when [otherBuffer] has no handle;
    - in a desktop build with the fast-copy capability, [update(otherBuffer)]
      with an [otherBuffer] that has a handle returns success, and the
      members and every buffer object there was are as before;
    - in a desktop build without the capability, [update(otherBuffer)] with
      an allocated [otherBuffer] other than the buffer returns with the
      members as before, and when it reports success [otherBuffer] is
      allocated as before and the store of the buffer holds the contents of
      [otherBuffer], while [getIndexCount] is still 0. *)
Theorem update_after_create_zero this w this1 w1 :
  create this 0 w = Done (true, this1, w1) →
  (∀ indices indexCount offset,
     indices = None ∨ (offset ≠ 0 ∧ offset + indexCount ≤ SIZE_MAX) →
     update this1 indices indexCount offset w1 = Done (false, this1, w1)) ∧
  (∀ indices indexCount,
     readable indices indexCount →
     ∃ arr this2 w2,
       indices = Some arr ∧
       update this1 indices indexCount 0 w1 = Done (true, this2, w2) ∧
       getIndexCount this2 = indexCount ∧
       getNativeHandle this2 = getNativeHandle this1 ∧
       getUsage this2 = getUsage this1 ∧
       gl_buffers w2 !! m_buffer this1
         = Some (indices_of (take (N.to_nat indexCount) arr)
                   (usageToGlEnum (m_usage this1))) ∧
       (∀ name, name ≠ m_buffer this1 →
          gl_buffers w2 !! name = gl_buffers w1 !! name)) ∧
  update_all this1 None w1 = Done (false, this1, w1) ∧
  (∀ indices,
     readable indices 0 →
     ∃ w2,
       update_all this1 indices w1 = Done (true, this1, w2) ∧
       gl_buffers w2 !! m_buffer this1
         = Some (unwritten 0 (usageToGlEnum (m_usage this1))) ∧
       (∀ name, name ≠ m_buffer this1 →
          gl_buffers w2 !! name = gl_buffers w1 !! name)) ∧
  (∀ es other,
     es = true ∨ m_buffer other = 0 →
     update_buffer es this1 other w1 = Done (false, this1, w1)) ∧
  (∀ other,
     m_buffer other ≠ 0 → GLEXT_copy_buffer w1 = true →
     ∃ w2,
       update_buffer false this1 other w1 = Done (true, this1, w2) ∧
       getIndexCount this1 = 0 ∧
       (∀ name, is_Some (gl_buffers w1 !! name) →
          gl_buffers w2 !! name = gl_buffers w1 !! name)) ∧
  (∀ other bo,
     allocated w1 other bo → m_buffer other ≠ m_buffer this1 →
     GLEXT_copy_buffer w1 = false →
     ∃ r w2,
       update_buffer false this1 other w1 = Done (r, this1, w2) ∧
       getIndexCount this1 = 0 ∧
       (r = true →
          allocated w2 other bo ∧
          gl_buffers w2 !! m_buffer this1
            = Some (mkBufferObject (bo_data bo)
                      (usageToGlEnum (m_usage this1)) None))).
Proof.
  intros Hcreate.
  pose proof (create_store_inv _ _ _ _ _ Hcreate) as Hstore.
  specialize (Hstore ltac:(done)).
  apply create_members in Hcreate as (_ & Hb & Hsize).
  assert (Hfail : ∀ indices indexCount offset,
     indices = None ∨ (offset ≠ 0 ∧ offset + indexCount ≤ SIZE_MAX) →
     update this1 indices indexCount offset w1 = Done (false, this1, w1)).
  { intros indices indexCount offset H. apply update_rejects.
    destruct H as [->|[Ho Hmax]]; [auto|].
    right. right. rewrite size_t_wrap_small by done. lia. }
  split_and!.
  - exact Hfail.
  - intros indices indexCount Hr.
    destruct (update_orphan_run this1 indices indexCount w1)
      as (arr & w2 & -> & Hrun & Hnew & Hothers); [done|done|lia|].
    exists arr, (with_size indexCount this1), w2. by split_and!.
  - apply Hfail. by left.
  - intros indices Hr. unfold update_all. rewrite Hsize.
    destruct (update_orphan_run this1 indices 0 w1)
      as (arr & w2 & -> & Hrun & Hnew & Hothers); [done|done|lia|].
    exists w2. split_and!; [|done|done].
    rewrite Hrun. destruct this1. cbn in Hsize. by subst.
  - intros es other H. unfold update_buffer. destruct es; [done|].
    destruct H as [?|Ho]; [done|]. rewrite Ho.
    by destruct (m_buffer this1 =? 0).
  - intros other Ho Hcap.
    destruct (update_buffer_fast_into_empty this1 other
                (usageToGlEnum (m_usage this1)) w1)
      as (w2 & Hrun & Hstill); [done..|].
    exists w2. by split_and!.
  - intros other bo Halloc Hne Hcap.
    destruct (update_buffer_fallback_run other this1 bo w1)
      as (r & w2 & Hrun & Hok); [done..|].
    exists r, w2. by split_and!.
Qed.

Lemma update_after_create_zero_witness :
  update (mkIndexBuffer 1 0 Stream) (Some [5]) 1 2
      (holding [(1, unwritten 0 GL_STREAM_DRAW)] true)
    = Done (false, mkIndexBuffer 1 0 Stream,
            holding [(1, unwritten 0 GL_STREAM_DRAW)] true) ∧
  (∃ w2, update (mkIndexBuffer 1 0 Stream) (Some [5; 6; 7]) 3 0
           (holding [(1, unwritten 0 GL_STREAM_DRAW)] true)
         = Done (true, mkIndexBuffer 1 3 Stream, w2) ∧
         gl_buffers w2 !! 1 = Some (indices_of [5; 6; 7] GL_STREAM_DRAW)) ∧
  (∃ w2, update_buffer false (mkIndexBuffer 1 0 Stream)
           (mkIndexBuffer 2 3 Static)
           (holding [(1, unwritten 0 GL_STREAM_DRAW)] true)
         = Done (true, mkIndexBuffer 1 0 Stream, w2) ∧
         gl_buffers w2 !! 1 = Some (unwritten 0 GL_STREAM_DRAW)).
Proof.
  destruct (update_after_create_zero IndexBuffer_default (blank true)
              (mkIndexBuffer 1 0 Stream)
              (holding [(1, unwritten 0 GL_STREAM_DRAW)] true))
    as (Hfail & Hgrow & _ & _ & _ & Hfast & _).
  - vm_compute. reflexivity.
  - split_and!.
    + apply Hfail. right. split; [done|]. vm_compute. discriminate.
    + destruct (Hgrow (Some [5; 6; 7]) 3)
        as (arr & this2 & w2 & Harr & Hrun & _ & _ & _ & Hnew & _).
      * exists [5; 6; 7]. split_and!; [done|simpl; lia|done].
      * injection Harr as <-. exists w2. split; [|exact Hnew].
        rewrite Hrun. vm_compute in Hrun. by injection Hrun as <- <-.
    + destruct (Hfast (mkIndexBuffer 2 3 Static)) as (w2 & Hrun & _ & Hold);
        [done|reflexivity|].
      exists w2. split; [exact Hrun|].
      rewrite Hold; [reflexivity|]. by eexists.
Defined.

(** ** update(otherBuffer) *)

(** C8.  Whatever [B.update(A)] returns, on every path, success or failure,
    the members of [B] are as before: cached count, handle and usage; and
    the call does return whenever [A] is an allocated buffer other than
    [B]. *)
Theorem update_buffer_frame es this other w :
  (∀ r this' w',
     update_buffer es this other w = Done (r, this', w') →
     getIndexCount this' = getIndexCount this ∧
     getNativeHandle this' = getNativeHandle this ∧
     getUsage this' = getUsage this) ∧
  (∀ bo, allocated w other bo → m_buffer other ≠ m_buffer this →
         ∃ r w', update_buffer es this other w = Done (r, this, w')).
Proof.
  split.
  - by intros r this' w' ->%update_buffer_members.
  - intros bo Hother Hne. by eapply update_buffer_defined.
Qed.

Lemma update_buffer_frame_witness :
  getIndexCount (mkIndexBuffer 2 2 Static) = 2 ∧
  getNativeHandle (mkIndexBuffer 2 2 Static) = 2 ∧
  getUsage (mkIndexBuffer 2 2 Static) = Static.
Proof.
  apply (proj1 (update_buffer_frame false (mkIndexBuffer 2 2 Static)
                  (mkIndexBuffer 1 3 Stream)
                  (holding [(1, indices_of [5; 6; 7] GL_STREAM_DRAW);
                            (2, indices_of [1; 2] GL_STATIC_DRAW)] false))
           true (mkIndexBuffer 2 2 Static)
           (holding [(1, indices_of [5; 6; 7] GL_STREAM_DRAW);
                     (2, indices_of [5; 6; 7] GL_STATIC_DRAW)] false)).
  vm_compute. reflexivity.
Defined.

(** The fallback path of the same call: the store of [B] now holds the three
    indices of [A] while [B] still reports a count of two. *)
Example update_buffer_fallback_stale_count :
  ∃ w', update_buffer false (mkIndexBuffer 2 2 Static)
          (mkIndexBuffer 1 3 Stream)
          (holding [(1, indices_of [5; 6; 7] GL_STREAM_DRAW);
                    (2, indices_of [1; 2] GL_STATIC_DRAW)] false)
        = Done (true, mkIndexBuffer 2 2 Static, w') ∧
        gl_buffers w' !! 2 = Some (indices_of [5; 6; 7] GL_STATIC_DRAW) ∧
        getIndexCount (mkIndexBuffer 2 2 Static) = 2.
Proof. eexists. by vm_compute. Qed.

(** C2 as stated fails: [A] holds three indices, [B] two.  With the
    fast-copy capability [B.update(A)] reports success and leaves count and
    contents of [B] as they were; without it the call reports success and
    the store of [B] holds the contents of [A], but the count of [B] is
    still two. *)
Lemma update_buffer_keeps_smaller_capacity :
  let A := mkIndexBuffer 1 3 Stream in
  let B := mkIndexBuffer 2 2 Static in
  let bufs := [(1, indices_of [5; 6; 7] GL_STREAM_DRAW);
               (2, indices_of [1; 2] GL_STATIC_DRAW)] in
  allocated (holding bufs true) A (indices_of [5; 6; 7] GL_STREAM_DRAW) ∧
  allocated (holding bufs true) B (indices_of [1; 2] GL_STATIC_DRAW) ∧
  update_buffer false B A (holding bufs true)
    = Done (true, B, holding bufs true) ∧
  update_buffer false B A (holding bufs false)
    = Done (true, B,
            holding [(1, indices_of [5; 6; 7] GL_STREAM_DRAW);
                     (2, indices_of [5; 6; 7] GL_STATIC_DRAW)] false) ∧
  getIndexCount B ≠ getIndexCount A.
Proof. unfold allocated. by vm_compute. Qed.

(** C2, amended.  For an allocated buffer [A] and a different allocated
    buffer [B] whose capacity already equals that of [A], [B.update(A)]
    returns; when it reports success, [getIndexCount] of [B] and of [A]
    agree, the device store of [B] holds exactly the contents of [A], and
    the store of [A] is as before.  This holds with and without the
    fast-copy capability. *)
Theorem update_buffer_equal_capacity es A B boA boB w :
  allocated w A boA → allocated w B boB →
  m_buffer A ≠ m_buffer B → m_size B = m_size A →
  ∃ r w',
    update_buffer es B A w = Done (r, B, w') ∧
    (r = true →
       getIndexCount B = getIndexCount A ∧
       allocated w' A boA ∧
       ∃ boB', allocated w' B boB' ∧ bo_data boB' = bo_data boA).
Proof.
  intros HA HB Hne Hsize.
  destruct (allocated_bytes _ _ _ HA) as (HbytesA & HstoreA & HlenA).
  destruct (allocated_bytes _ _ _ HB) as (HbytesB & HstoreB & HlenB).
  pose proof HA as (Ha0 & HboA & HmapA & HnA & _).
  pose proof HB as (Hb0 & HboB & HmapB & HnB & _).
  destruct es; [by exists false, w|].
  destruct (GLEXT_copy_buffer w) eqn:Hcap.
  - (* the driver copies *)
    unfold update_buffer.
    destruct (N.eqb_spec (m_buffer B) 0) as [|_]; [done|].
    destruct (N.eqb_spec (m_buffer A) 0) as [|_]; [done|]. cbn.
    rewrite Hcap.
    rewrite (to_GLsizeiptr_small (sizeof_GLuint * m_size A)) by done.
    erewrite gl_bind_Done; last first.
    { apply glBindBuffer_present. right. by rewrite HboA. }
    erewrite gl_bind_Done; last first.
    { apply glBindBuffer_present. right.
      by rewrite gl_buffers_with_binding, HboB. }
    erewrite gl_bind_Done; last first.
    { eapply (glCopyBufferSubData_run _ _ _ (m_buffer A) (m_buffer B) boA boB);
        rewrite ?gl_buffers_with_binding; try done; lia. }
    erewrite gl_bind_Done; last first.
    { apply glBindBuffer_present. by left. }
    erewrite gl_bind_Done; last first.
    { apply glBindBuffer_present. by left. }
    eexists true, _. split; [done|]. intros _. split; [done|].
    unfold allocated.
    rewrite !gl_buffers_with_binding, gl_buffers_with_buffers,
      !gl_buffers_with_binding.
    rewrite lookup_insert_ne, lookup_insert_eq by done.
    split; [done|]. eexists. split; [split_and!; try done|]; cbn.
    + rewrite length_inserts. done.
    + unfold store_bytes. cbn. rewrite length_inserts.
      by destruct HB as (_ & _ & _ & _ & ?).
    + rewrite cells_indices, <- HlenA, firstn_all.
      apply list_inserts_all. lia.
  - (* both stores are mapped and copied by hand *)
    destruct (update_buffer_fallback_run A B boA w)
      as (r & w' & Hrun & Hok); [done..|].
    exists r, w'. split; [done|]. intros Hr.
    destruct (Hok Hr) as [HA' HB']. split; [done|]. split; [done|].
    exists (mkBufferObject (bo_data boA) (usageToGlEnum (m_usage B)) None).
    split; [|done]. unfold allocated. split_and!; try done.
    + cbn. lia.
    + by destruct HA as (_ & _ & _ & _ & ?).
Qed.

Lemma update_buffer_equal_capacity_witness :
  let A := mkIndexBuffer 1 3 Stream in
  let B := mkIndexBuffer 2 3 Static in
  let boA := indices_of [5; 6; 7] GL_STREAM_DRAW in
  let w := holding [(1, boA); (2, unwritten 3 GL_STATIC_DRAW)] false in
  ∃ r w',
    update_buffer false B A w = Done (r, B, w') ∧
    (r = true →
       getIndexCount B = getIndexCount A ∧
       allocated w' A boA ∧
       ∃ boB', allocated w' B boB' ∧ bo_data boB' = bo_data boA).
Proof.
  apply (update_buffer_equal_capacity false (mkIndexBuffer 1 3 Stream)
           (mkIndexBuffer 2 3 Static)
           (indices_of [5; 6; 7] GL_STREAM_DRAW)
           (unwritten 3 GL_STATIC_DRAW)).
  - unfold allocated. by split_and!.
  - unfold allocated. by split_and!.
  - done.
  - done.
Defined.

(** ** Copy construction *)

(** C3, amended.  Copy-constructing from a source with an allocated resource
    (non-empty handle, non-zero capacity): when the creation of the resource
    fails, the new instance has the usage of the source, an empty handle and
    capacity 0; when the creation succeeds and the buffer-to-buffer copy
    fails, the failure is reported and the new instance keeps the resource
    it created: a non-empty handle, the capacity of the source and the usage
    of the source. *)
Theorem IndexBuffer_copy_failure es copy w :
  m_buffer copy ≠ 0 → m_size copy ≠ 0 →
  let this0 := mkIndexBuffer 0 0 (m_usage copy) in
  (∀ this1 w1,
     create this0 (m_size copy) w = Done (false, this1, w1) →
     IndexBuffer_copy es copy w
       = Done (this0,
               with_err "Could not create index buffer for copying" w1)) ∧
  (∀ this1 w1 this2 w2,
     create this0 (m_size copy) w = Done (true, this1, w1) →
     update_buffer es this1 copy w1 = Done (false, this2, w2) →
     IndexBuffer_copy es copy w
       = Done (this2, with_err "Could not copy index buffer" w2) ∧
     m_buffer this2 ≠ 0 ∧
     m_size this2 = m_size copy ∧
     m_usage this2 = m_usage copy).
Proof.
  intros Hb Hs this0. split.
  - intros this1 w1 Hcreate.
    rewrite IndexBuffer_copy_stages by done. fold this0.
    rewrite (gl_bind_Done _ _ _ _ _ Hcreate). cbn.
    apply create_members in Hcreate as (Hu & H0 & Hn).
    destruct this1; by simplify_eq/=.
  - intros this1 w1 this2 w2 Hcreate Hupdate.
    rewrite IndexBuffer_copy_stages by done. fold this0.
    rewrite (gl_bind_Done _ _ _ _ _ Hcreate). cbn.
    rewrite (gl_bind_Done _ _ _ _ _ Hupdate). cbn.
    apply update_buffer_members in Hupdate as ->.
    by apply create_members in Hcreate as (Hu & H0 & Hn).
Qed.

(** C3 as stated fails: in a build with [SFML_OPENGL_ES] the copy stage
    always fails, and in a desktop build it fails when the driver reports a
    lost store on unmapping; both times the failure is reported and the new
    instance keeps handle 2 and capacity 3. *)
Lemma IndexBuffer_copy_keeps_resource :
  let copy := mkIndexBuffer 1 3 Stream in
  let boA := indices_of [5; 6; 7] GL_STREAM_DRAW in
  IndexBuffer_copy true copy (holding [(1, boA)] true)
    = Done (mkIndexBuffer 2 3 Stream,
            with_err "Could not copy index buffer"
              (holding [(1, boA); (2, unwritten 3 GL_STREAM_DRAW)] true)) ∧
  IndexBuffer_copy false copy
      (with_unmap_script [true; false] (holding [(1, boA)] false))
    = Done (mkIndexBuffer 2 3 Stream,
            with_err "Could not copy index buffer"
              (holding [(1, boA); (2, unwritten 3 GL_STREAM_DRAW)] false)).
Proof. by vm_compute. Qed.

Lemma IndexBuffer_copy_failure_witness :
  let copy := mkIndexBuffer 1 3 Stream in
  let boA := indices_of [5; 6; 7] GL_STREAM_DRAW in
  IndexBuffer_copy true copy (with_gen_script [false] (holding [(1, boA)] true))
    = Done (mkIndexBuffer 0 0 Stream,
            with_err "Could not create index buffer for copying"
              (with_err "Could not create index buffer, generation failed"
                 (holding [(1, boA)] true))) ∧
  IndexBuffer_copy true copy (holding [(1, boA)] true)
    = Done (mkIndexBuffer 2 3 Stream,
            with_err "Could not copy index buffer"
              (holding [(1, boA); (2, unwritten 3 GL_STREAM_DRAW)] true)).
Proof.
  split.
  - refine (proj1 (IndexBuffer_copy_failure true (mkIndexBuffer 1 3 Stream)
                     (with_gen_script [false]
                        (holding [(1, indices_of [5; 6; 7] GL_STREAM_DRAW)]
                           true)) _ _)
              (mkIndexBuffer 0 0 Stream) _ _); [done|done|].
    vm_compute. reflexivity.
  - refine (proj1 (proj2 (IndexBuffer_copy_failure true
                            (mkIndexBuffer 1 3 Stream)
                            (holding
                               [(1, indices_of [5; 6; 7] GL_STREAM_DRAW)]
                               true) _ _)
                     (mkIndexBuffer 2 3 Stream) _ _ _ _ _)); [done|done| |].
    + vm_compute. reflexivity.
    + vm_compute. reflexivity.
Defined.

(** C10.  Copy-constructing from a source whose handle is not empty and
    whose capacity is 0 calls neither [create] nor the buffer-to-buffer
    copy: the driver is untouched, and the new instance has an empty handle,
    capacity 0 and the usage of the source. *)
Theorem IndexBuffer_copy_zero_capacity es copy w :
  m_buffer copy ≠ 0 → m_size copy = 0 →
  ∃ this,
    IndexBuffer_copy es copy w = Done (this, w) ∧
    getNativeHandle this = 0 ∧
    getIndexCount this = 0 ∧
    getUsage this = getUsage copy.
Proof.
  intros _ Hs. exists (mkIndexBuffer 0 0 (m_usage copy)). split; [|done].
  apply IndexBuffer_copy_unallocated. by right.
Qed.

Lemma IndexBuffer_copy_zero_capacity_witness :
  ∃ this,
    IndexBuffer_copy false (mkIndexBuffer 1 0 Dynamic)
        (holding [(1, unwritten 0 GL_DYNAMIC_DRAW)] true)
      = Done (this, holding [(1, unwritten 0 GL_DYNAMIC_DRAW)] true) ∧
    getNativeHandle this = 0 ∧
    getIndexCount this = 0 ∧
    getUsage this = Dynamic.
Proof.
  apply (IndexBuffer_copy_zero_capacity false (mkIndexBuffer 1 0 Dynamic)
           (holding [(1, unwritten 0 GL_DYNAMIC_DRAW)] true)).
  - done.
  - done.
Defined.

(** * Further properties *)

(** ** What each driver call leaves alone *)

Lemma same_but_refl names w : same_but names w w.
Proof. by split_and!. Qed.

Lemma same_but_trans l1 l2 w w1 w2 :
  same_but l1 w w1 → same_but l2 w1 w2 → same_but (l1 ++ l2) w w2.
Proof.
  intros (Hb1 & He1 & Hc1) (Hb2 & He2 & Hc2). split_and!; [|congruence..].
  intros name Hname. rewrite not_elem_of_app in Hname.
  destruct Hname. rewrite Hb2, Hb1; done.
Qed.

Lemma same_but_weaken l l' w w' :
  l ⊆ l' → same_but l w w' → same_but l' w w'.
Proof.
  intros Hsub (Hb & He & Hc). split_and!; [|done..].
  intros name Hname. apply Hb. set_solver.
Qed.

Lemma same_but_insert name bo w :
  same_but [name] w (with_buffers (insert name bo) w).
Proof.
  split_and!; [|done..]. intros name' Hne. cbn.
  apply lookup_insert_ne. set_solver.
Qed.

Lemma same_bindings_trans w w1 w2 :
  same_bindings w w1 → same_bindings w1 w2 → same_bindings w w2.
Proof. intros H1 H2 t. by rewrite H2, H1. Qed.

Ltac frame_step :=
  try first [ apply same_but_refl
            | apply same_but_insert
            | done
            | intros ?; apply binding_with_buffers ].

Lemma glBindBuffer_frame t name w a w' :
  glBindBuffer t name w = Done (a, w') →
  same_but (if name =? 0 then [] else [name]) w w' ∧
  binding t w' = name ∧
  (∀ t', t' ≠ t → binding t' w' = binding t' w).
Proof.
  rewrite glBindBuffer_run. intros [= <- <-]. split_and!.
  - unfold ensure_object, same_but. autorewrite with world.
    destruct (name =? 0); cbn.
    + by destruct t.
    + case_match.
      * by destruct t.
      * destruct t; cbn; (split_and!; [|done..]); intros name' Hne;
          apply lookup_insert_ne; set_solver.
  - apply binding_with_binding.
  - intros t' Hne. rewrite binding_with_binding_ne by done.
    apply binding_ensure_object.
Qed.

Lemma glBufferData_frame t size usage w a w' :
  glBufferData t size usage w = Done (a, w') →
  same_but [binding t w] w w' ∧ same_bindings w w'.
Proof.
  unfold glBufferData, gl_modify. intros [= <- <-].
  repeat case_match; split; frame_step.
Qed.

Lemma glBufferSubData_frame t offset size data w a w' :
  glBufferSubData t offset size data w = Done (a, w') →
  same_but [binding t w] w w' ∧ same_bindings w w'.
Proof.
  unfold glBufferSubData. intros H.
  repeat (case_match; simplify_eq/=); split; frame_step.
Qed.

Lemma glCopyBufferSubData_frame rt wt roff woff size w a w' :
  glCopyBufferSubData rt wt roff woff size w = Done (a, w') →
  same_but [binding wt w] w w' ∧ same_bindings w w'.
Proof.
  unfold glCopyBufferSubData, gl_modify. intros [= <- <-].
  repeat case_match; split; frame_step.
Qed.

Lemma glMapBuffer_frame t access w p w' :
  glMapBuffer t access w = Done (p, w') →
  same_but [binding t w] w w' ∧ same_bindings w w' ∧
  (∀ name, p = Some name → name = binding t w).
Proof.
  unfold glMapBuffer. intros H.
  repeat (case_match; simplify_eq/=); split_and!; frame_step.
  by intros name [= <-].
Qed.

Lemma glUnmapBuffer_frame t w r w' :
  glUnmapBuffer t w = Done (r, w') →
  same_but [binding t w] w w' ∧ same_bindings w w'.
Proof.
  unfold glUnmapBuffer. intros H.
  repeat (case_match; simplify_eq/=); split; frame_step.
Qed.

Lemma memcpy_frame d s n w a w' :
  memcpy d s n w = Done (a, w') →
  ∃ name, d = Some name ∧ same_but [name] w w' ∧ same_bindings w w'.
Proof.
  unfold memcpy. intros H.
  repeat (case_match; simplify_eq/=).
  eexists. split; [done|]. split; frame_step.
Qed.

(** ** What [update] leaves alone *)

Lemma update_false_inv this indices indexCount offset w this' w' :
  update this indices indexCount offset w = Done (false, this', w') →
  this' = this ∧ w' = w.
Proof.
  unfold update. gl_unfold. intros H.
  repeat (case_match; simplify_eq/=); done.
Qed.

(** X1.  Every failure of [update] is an early return: a call that reports
    failure has changed neither the object nor the driver, and it was made
    on an instance without handle, with a null data pointer, or with a
    non-zero offset that failed the range check. *)
Theorem update_failure_atomic this indices indexCount offset w this' w' :
  update this indices indexCount offset w = Done (false, this', w') →
  this' = this ∧ w' = w ∧
  (m_buffer this = 0 ∨ indices = None ∨
   (offset ≠ 0 ∧ m_size this < size_t_wrap (offset + indexCount))).
Proof.
  intros H. destruct (update_false_inv _ _ _ _ _ _ _ H) as [-> ->].
  split_and!; [done..|].
  destruct (decide (m_buffer this = 0)) as [|Hb]; [auto|].
  destruct indices as [arr|]; [|auto].
  destruct (decide (offset = 0)) as [Ho|Ho];
    [|destruct (decide (m_size this < size_t_wrap (offset + indexCount)));
      [auto|]].
  all: rewrite update_accepted in H by (done || lia).
  all: apply gl_bind_inv in H as (? & ? & _ & H).
  all: apply gl_bind_inv in H as (? & ? & _ & H).
  all: apply gl_bind_inv in H as (? & ? & _ & H).
  all: apply gl_bind_inv in H as (? & ? & _ & H).
  all: gl_unfold; by simplify_eq.
Qed.

Lemma update_failure_atomic_witness :
  mkIndexBuffer 1 4 Stream = mkIndexBuffer 1 4 Stream ∧
  holding [(1, unwritten 4 GL_STREAM_DRAW)] true
    = holding [(1, unwritten 4 GL_STREAM_DRAW)] true ∧
  (1 = 0 ∨ Some [7; 8] = None ∨ (3 ≠ 0 ∧ 4 < size_t_wrap (3 + 2))).
Proof.
  apply (update_failure_atomic (mkIndexBuffer 1 4 Stream) (Some [7; 8]) 2 3
           (holding [(1, unwritten 4 GL_STREAM_DRAW)] true)).
  vm_compute. reflexivity.
Defined.

(** X2.  A call of [update] changes no buffer object but its own, writes
    nothing to the error stream and leaves the copy binding points alone; a
    call that reports success leaves nothing bound to the element-array
    binding point, whatever was bound there before. *)
Theorem update_frame this indices indexCount offset w r this' w' :
  update this indices indexCount offset w = Done (r, this', w') →
  (∀ name, name ≠ m_buffer this →
     gl_buffers w' !! name = gl_buffers w !! name) ∧
  err_stream w' = err_stream w ∧
  gl_copy_read w' = gl_copy_read w ∧
  gl_copy_write w' = gl_copy_write w ∧
  (r = true → gl_element_array w' = 0).
Proof.
  intros H. destruct r; last first.
  { by apply update_false_inv in H as [-> ->]. }
  revert H. unfold update.
  destruct (m_buffer this =? 0); [by gl_unfold|].
  destruct (negb _); [by gl_unfold|].
  destruct (_ && _); [by gl_unfold|].
  intros H.
  apply gl_bind_inv in H as (? & w1 & H1 & H).
  apply gl_bind_inv in H as (this1 & w2 & H2 & H).
  apply gl_bind_inv in H as (? & w3 & H3 & H).
  apply gl_bind_inv in H as (? & w4 & H4 & H).
  apply glBindBuffer_frame in H1 as (S1 & B1 & O1).
  apply glBufferSubData_frame in H3 as (S3 & B3).
  apply glBindBuffer_frame in H4 as (S4 & B4 & O4).
  assert (same_but [m_buffer this] w1 w2 ∧ same_bindings w1 w2) as [S2 B2].
  { destruct (m_size this <=? indexCount).
    - apply gl_bind_inv in H2 as (? & w2' & H2 & H2').
      gl_unfold. simplify_eq.
      apply glBufferData_frame in H2. by rewrite B1 in H2.
    - gl_unfold. simplify_eq. split; [apply same_but_refl|done]. }
  rewrite (B2 GL_ELEMENT_ARRAY_BUFFER), B1 in S3.
  gl_unfold. simplify_eq.
  pose proof (same_but_trans _ _ _ _ _ S1
                (same_but_trans _ _ _ _ _ S2
                   (same_but_trans _ _ _ _ _ S3 S4))) as (Hb & He & _).
  split_and!; [|done| | |done].
  - intros name Hne. apply Hb.
    destruct (m_buffer this =? 0);
      rewrite ?not_elem_of_app, ?not_elem_of_cons, ?elem_of_nil; tauto.
  - change (binding GL_COPY_READ_BUFFER w' = binding GL_COPY_READ_BUFFER w).
    rewrite O4, B3, B2, O1; done.
  - change (binding GL_COPY_WRITE_BUFFER w' = binding GL_COPY_WRITE_BUFFER w).
    rewrite O4, B3, B2, O1; done.
Qed.

Lemma update_frame_witness :
  ∃ w', update (mkIndexBuffer 1 2 Stream) (Some [8]) 1 1
          (with_binding GL_ELEMENT_ARRAY_BUFFER 2
             (holding [(1, indices_of [1; 2] GL_STREAM_DRAW);
                       (2, indices_of [3] GL_STATIC_DRAW)] true))
        = Done (true, mkIndexBuffer 1 2 Stream, w') ∧
        gl_buffers w' !! 2 = Some (indices_of [3] GL_STATIC_DRAW) ∧
        gl_element_array w' = 0.
Proof.
  eexists. split; [vm_compute; reflexivity|].
  destruct (update_frame (mkIndexBuffer 1 2 Stream) (Some [8]) 1 1
              (with_binding GL_ELEMENT_ARRAY_BUFFER 2
                 (holding [(1, indices_of [1; 2] GL_STREAM_DRAW);
                           (2, indices_of [3] GL_STATIC_DRAW)] true))
              _ _ _ eq_refl) as (Hothers & _ & _ & _ & Hunbound).
  split; [by rewrite Hothers|by apply Hunbound].
Defined.

(** ** Creation *)

Lemma fresh_name_spec w :
  fresh_name w ≠ 0 ∧ gl_buffers w !! fresh_name w = None.
Proof.
  pose proof (is_fresh ({[0]} ∪ dom (gl_buffers w))) as H.
  fold (fresh_name w) in H. rewrite not_elem_of_union in H.
  destruct H as [H0 Hdom]. split.
  - intros Heq. apply H0. rewrite Heq. by apply elem_of_singleton.
  - by apply not_elem_of_dom.
Qed.

(** The three driver calls at the end of [create], for an instance that has
    a handle. *)
Lemma create_store_run this indexCount w :
  m_buffer this ≠ 0 →
  (Z.of_N (sizeof_GLuint * indexCount) ≤ PTRDIFF_MAX)%Z →
  (glBindBuffer GL_ELEMENT_ARRAY_BUFFER (m_buffer this) ;;
   glBufferData GL_ELEMENT_ARRAY_BUFFER
     (to_GLsizeiptr (size_t_wrap (sizeof_GLuint * indexCount)))
     (usageToGlEnum (m_usage this)) ;;
   glBindBuffer GL_ELEMENT_ARRAY_BUFFER 0 ;;
   mret (true, with_size indexCount this)) w
  = Done (true, with_size indexCount this,
          with_binding GL_ELEMENT_ARRAY_BUFFER 0
            (with_buffers
               (insert (m_buffer this)
                  (unwritten (N.to_nat indexCount)
                     (usageToGlEnum (m_usage this))))
               (with_binding GL_ELEMENT_ARRAY_BUFFER (m_buffer this)
                  (ensure_object (m_buffer this) w)))).
Proof.
  intros Hb Hbytes.
  rewrite (to_GLsizeiptr_small (sizeof_GLuint * indexCount)) by done.
  rewrite (gl_bind_Done _ _ _ _ _ (glBindBuffer_run _ _ _)).
  erewrite gl_bind_Done; last first.
  { apply (glBufferData_run _ _ _ (m_buffer this)); autorewrite with world;
      [done|done|by apply ensure_object_lookup|lia]. }
  rewrite cells_indices.
  erewrite gl_bind_Done; last first.
  { apply glBindBuffer_present. by left. }
  done.
Qed.

Lemma create_succeeds this indexCount w :
  m_buffer this ≠ 0 ∨ head (gl_gen_script w) ≠ Some false →
  (Z.of_N (sizeof_GLuint * indexCount) ≤ PTRDIFF_MAX)%Z →
  ∃ this' w',
    create this indexCount w = Done (true, this', w') ∧
    getIndexCount this' = indexCount ∧
    getUsage this' = getUsage this ∧
    (m_buffer this ≠ 0 → m_buffer this' = m_buffer this) ∧
    (m_buffer this = 0 → gl_buffers w !! m_buffer this' = None) ∧
    allocated w' this'
      (unwritten (N.to_nat indexCount) (usageToGlEnum (m_usage this))) ∧
    same_but [m_buffer this'] w w' ∧
    gl_element_array w' = 0.
Proof.
  intros Hgen Hbytes. unfold create. cbn [isAvailable negb].
  destruct (N.eqb_spec (m_buffer this) 0) as [Hb|Hb].
  - destruct Hgen as [?|Hgen]; [done|].
    destruct (fresh_name_spec w) as [Hfresh0 Hfresh].
    set (name := fresh_name w) in *.
    set (w1 := with_gen_script (tail (gl_gen_script w))
                 (with_buffers (insert name new_object) w)).
    assert (Hrun : glGenBuffers w = Done (name, w1)).
    { unfold glGenBuffers. destruct (gl_gen_script w) as [|[] ?]; done. }
    rewrite (gl_bind_Done _ _ _ _ _
               (gl_bind_Done _ _ _ _ _ Hrun)).
    cbn [mret gl_mret gl_ret with_buffer m_buffer m_usage m_size].
    destruct (N.eqb_spec name 0) as [|_]; [done|].
    pose proof (create_store_run (with_buffer name this) indexCount w1
                  Hfresh0 Hbytes) as Hstore.
    eexists _, _. split; [exact Hstore|].
    cbn [with_size with_buffer m_buffer m_usage m_size].
    split_and!; try done.
    + unfold allocated. autorewrite with world. cbn.
      rewrite lookup_insert_eq, length_replicate.
      split_and!; try done; [lia|].
      unfold store_bytes. cbn. rewrite length_replicate.
      unfold sizeof_GLuint in *. lia.
    + split_and!.
      * intros name' Hne. apply not_elem_of_cons in Hne as [Hne _].
        autorewrite with world. rewrite lookup_insert_ne by done.
        rewrite ensure_object_lookup_ne by done.
        unfold w1. cbn. by rewrite lookup_insert_ne.
      * unfold ensure_object. by case_match.
      * unfold ensure_object. by case_match.
  - rewrite (gl_bind_Done _ _ _ this w) by done.
    destruct (N.eqb_spec (m_buffer this) 0) as [|_]; [done|].
    rewrite create_store_run by done.
    eexists _, _. split; [done|]. cbn [with_size m_buffer m_usage m_size].
    split_and!; try done.
    + unfold allocated. autorewrite with world. cbn.
      rewrite lookup_insert_eq, length_replicate.
      split_and!; try done; [lia|].
      unfold store_bytes. cbn. rewrite length_replicate.
      unfold sizeof_GLuint in *. lia.
    + split_and!.
      * intros name' Hne. apply not_elem_of_cons in Hne as [Hne _].
        autorewrite with world. rewrite lookup_insert_ne by done.
        by rewrite ensure_object_lookup_ne.
      * unfold ensure_object. by case_match.
      * unfold ensure_object. by case_match.
Qed.

(** X3.  [create] with a handle at hand, or with a driver that generates one,
    and a count whose byte size fits [GLsizeiptr]: the call succeeds, the
    instance owns a store of exactly [indexCount] unwritten indices tagged
    with its usage, an existing handle is kept, a generated one names no
    object that was there before, every other buffer object and the error
    stream are as before, and nothing is left bound. *)
Theorem create_allocates this indexCount w :
  m_buffer this ≠ 0 ∨ head (gl_gen_script w) ≠ Some false →
  (Z.of_N (sizeof_GLuint * indexCount) ≤ PTRDIFF_MAX)%Z →
  ∃ this' w',
    create this indexCount w = Done (true, this', w') ∧
    getIndexCount this' = indexCount ∧
    getUsage this' = getUsage this ∧
    getNativeHandle this' ≠ 0 ∧
    (m_buffer this ≠ 0 → getNativeHandle this' = getNativeHandle this) ∧
    (m_buffer this = 0 → gl_buffers w !! getNativeHandle this' = None) ∧
    allocated w' this'
      (unwritten (N.to_nat indexCount) (usageToGlEnum (m_usage this))) ∧
    (∀ name, name ≠ getNativeHandle this' →
       gl_buffers w' !! name = gl_buffers w !! name) ∧
    err_stream w' = err_stream w ∧
    gl_element_array w' = 0.
Proof.
  intros Hgen Hbytes.
  destruct (create_succeeds this indexCount w Hgen Hbytes)
    as (this' & w' & Hrun & Hcount & Husage & Hkeep & Hfresh & Halloc
        & (Hsame & Herr & _) & Hunbound).
  exists this', w'. split_and!; try done.
  - by destruct Halloc.
  - intros name Hne. apply Hsame.
    rewrite not_elem_of_cons, elem_of_nil. tauto.
Qed.

Lemma create_allocates_witness :
  ∃ w', create (IndexBuffer_usage Static) 3 (blank true)
        = Done (true, mkIndexBuffer 1 3 Static, w') ∧
        allocated w' (mkIndexBuffer 1 3 Static) (unwritten 3 GL_STATIC_DRAW).
Proof.
  destruct (create_allocates (IndexBuffer_usage Static) 3 (blank true))
    as (this' & w' & Hrun & _).
  - right. simpl. discriminate.
  - done.
  - exists w'. vm_compute in Hrun. injection Hrun as <- <-. by vm_compute.
Defined.

(** X4.  [create] reports failure exactly when the instance has no handle and
    the driver generates none; the members are then unchanged, no buffer
    object is touched, and one message goes to the error stream. *)
Theorem create_failure this indexCount w created this' w' :
  create this indexCount w = Done (created, this', w') →
  (created = false ↔
     m_buffer this = 0 ∧ head (gl_gen_script w) = Some false) ∧
  (created = false →
     this' = this ∧
     gl_buffers w' = gl_buffers w ∧
     err_stream w'
       = err_stream w
           ++ ["Could not create index buffer, generation failed"]).
Proof.
  destruct (fresh_name_spec w) as [Hfresh _].
  unfold create, glGenBuffers, glBindBuffer, glBufferData. gl_unfold.
  cbn [isAvailable negb]. intros H.
  destruct (N.eqb_spec (m_buffer this) 0) as [Hb|Hb].
  - destruct (gl_gen_script w) as [|[] s] eqn:Hs; cbn in H.
    + destruct (N.eqb_spec (fresh_name w) 0) as [|_]; [done|].
      simplify_eq. split; [|done]. split; [done|]. by intros [_ ?].
    + destruct (N.eqb_spec (fresh_name w) 0) as [|_]; [done|].
      simplify_eq. split; [|done]. split; [done|]. by intros [_ ?].
    + simplify_eq. split; [done|]. intros _.
      split_and!; [|done..]. destruct this; by simplify_eq/=.
  - destruct (N.eqb_spec (m_buffer this) 0) as [|_]; [done|].
    simplify_eq. split; [|done]. split; [done|]. by intros [? _].
Qed.

Lemma create_failure_witness :
  ∃ w', create IndexBuffer_default 5 (with_gen_script [false] (blank true))
        = Done (false, IndexBuffer_default, w') ∧
        gl_buffers w' = ∅.
Proof.
  pose proof (create_failure IndexBuffer_default 5
                (with_gen_script [false] (blank true)) false
                IndexBuffer_default
                (with_err "Could not create index buffer, generation failed"
                   (blank true))) as [_ Hfail].
  - vm_compute. reflexivity.
  - eexists. split; [vm_compute; reflexivity|].
    destruct (Hfail eq_refl) as (_ & Hbufs & _). exact Hbufs.
Defined.

Lemma glGenBuffers_inv w name w' :
  glGenBuffers w = Done (name, w') →
  (name = 0 ∧ same_but [] w w') ∨
  (name ≠ 0 ∧ gl_buffers w !! name = None ∧ same_but [name] w w').
Proof.
  destruct (fresh_name_spec w) as [Hfresh0 Hfresh].
  unfold glGenBuffers. intros H.
  destruct (gl_gen_script w) as [|[] s]; simplify_eq/=.
  - right. split_and!; [done..|apply same_but_insert].
  - right. split_and!; [done..|apply same_but_insert].
  - left. by split_and!.
Qed.

(** A successful [create] changes no buffer object but its own, and a
    handle it had to generate names no object that was there before. *)
Lemma create_inv this indexCount w this' w' :
  create this indexCount w = Done (true, this', w') →
  m_buffer this' ≠ 0 ∧
  same_but [m_buffer this'] w w' ∧
  (m_buffer this = 0 → gl_buffers w !! m_buffer this' = None).
Proof.
  unfold create. cbn [isAvailable negb]. intros H.
  apply gl_bind_inv in H as (this1 & w1 & H1 & H).
  assert (m_buffer this1 ≠ 0 → same_but [m_buffer this1] w w1 ∧
          (m_buffer this = 0 → gl_buffers w !! m_buffer this1 = None))
    as Hgen.
  { intros Hne. destruct (N.eqb_spec (m_buffer this) 0) as [Hb|Hb].
    - apply gl_bind_inv in H1 as (name & w1' & Hg & Hret).
      gl_unfold. simplify_eq. cbn in *.
      apply glGenBuffers_inv in Hg as [[? _]|(_ & Hnone & Hsame)]; done.
    - gl_unfold. simplify_eq. split; [apply same_but_refl|done]. }
  destruct (N.eqb_spec (m_buffer this1) 0) as [|Hb1].
  { apply gl_bind_inv in H as (? & ? & _ & H). gl_unfold. by simplify_eq. }
  destruct (Hgen Hb1) as [S0 Hnone].
  apply gl_bind_inv in H as (? & w2 & H2 & H).
  apply gl_bind_inv in H as (? & w3 & H3 & H).
  apply gl_bind_inv in H as (? & w4 & H4 & H).
  gl_unfold. simplify_eq. cbn [with_size m_buffer].
  apply glBindBuffer_frame in H2 as (S2 & B2 & _).
  apply glBufferData_frame in H3 as (S3 & _). rewrite B2 in S3.
  apply glBindBuffer_frame in H4 as (S4 & _).
  split; [done|]. split; [|done].
  pose proof (same_but_trans _ _ _ _ _ S0
                (same_but_trans _ _ _ _ _ S2
                   (same_but_trans _ _ _ _ _ S3 S4))) as S.
  eapply same_but_weaken; [|exact S].
  intros name. destruct (m_buffer this1 =? 0);
    rewrite ?elem_of_app, ?elem_of_cons, ?elem_of_nil; tauto.
Qed.

Lemma destroy_buffers this w :
  ∃ w', destroy this w = Done (tt, w') ∧
        gl_buffers w'
          = (if m_buffer this =? 0 then gl_buffers w
             else delete (m_buffer this) (gl_buffers w)).
Proof.
  unfold destroy, glDeleteBuffers. gl_unfold.
  destruct (m_buffer this =? 0); cbn; [by eexists|].
  eexists. split; [done|]. cbn. by repeat case_match.
Qed.

(** X5.  Creating a buffer from an instance without handle and destroying it
    again leaves the driver with the buffer objects it had before. *)
Theorem create_destroy_round_trip this indexCount w this' w' :
  m_buffer this = 0 →
  create this indexCount w = Done (true, this', w') →
  ∃ w'', destroy this' w' = Done (tt, w'') ∧ gl_buffers w'' = gl_buffers w.
Proof.
  intros Hb Hcreate.
  apply create_inv in Hcreate as (Hb' & (Hsame & _) & Hnone).
  destruct (destroy_buffers this' w') as (w'' & Hrun & Hbufs).
  exists w''. split; [done|]. rewrite Hbufs.
  apply N.eqb_neq in Hb'. rewrite Hb'. apply map_eq. intros name.
  destruct (decide (name = m_buffer this')) as [->|Hne].
  - rewrite lookup_delete_eq. symmetry. by apply Hnone.
  - rewrite lookup_delete_ne by done. apply Hsame.
    rewrite not_elem_of_cons, elem_of_nil. tauto.
Qed.

Lemma create_destroy_round_trip_witness :
  ∃ w'', destroy (mkIndexBuffer 2 4 Stream)
           (holding [(1, indices_of [5; 6; 7] GL_STREAM_DRAW);
                     (2, unwritten 4 GL_STREAM_DRAW)] true)
         = Done (tt, w'') ∧
         gl_buffers w''
           = gl_buffers
               (holding [(1, indices_of [5; 6; 7] GL_STREAM_DRAW)] true).
Proof.
  apply (create_destroy_round_trip IndexBuffer_default 4
           (holding [(1, indices_of [5; 6; 7] GL_STREAM_DRAW)] true)).
  - done.
  - vm_compute. reflexivity.
Defined.

(** ** More on [update] *)

Lemma list_inserts_outside {A} (i x : nat) (k l : list A) :
  ¬ (i ≤ x < i + length k)%nat → list_inserts i k l !! x = l !! x.
Proof.
  intros Hout. destruct (decide (x < i)%nat).
  - by apply list_lookup_inserts_lt.
  - apply list_lookup_inserts_ge. lia.
Qed.

Lemma list_inserts_disjoint_commute {A} (i j : nat) (k1 k2 l : list A) :
  (i + length k1 ≤ j ∨ j + length k2 ≤ i)%nat →
  list_inserts i k1 (list_inserts j k2 l)
    = list_inserts j k2 (list_inserts i k1 l).
Proof.
  intros Hdisj. apply list_eq. intros x.
  destruct (decide (x < length l)%nat) as [Hx|Hx]; last first.
  { rewrite !lookup_ge_None_2; [done|rewrite !length_inserts; lia..]. }
  destruct (decide (i ≤ x < i + length k1)%nat) as [H1|H1].
  - rewrite (list_inserts_outside j) by lia.
    by rewrite !list_lookup_inserts by (rewrite ?length_inserts; lia).
  - rewrite (list_inserts_outside i) by lia.
    destruct (decide (j ≤ x < j + length k2)%nat) as [H2|H2].
    + by rewrite !list_lookup_inserts by (rewrite ?length_inserts; lia).
    + by rewrite !list_inserts_outside by lia.
Qed.

(** The in-place update with the driver state it leaves. *)
Lemma update_in_place_run this arr indexCount offset w bo :
  allocated w this bo →
  readable (Some arr) indexCount →
  indexCount < m_size this → offset + indexCount ≤ m_size this →
  update this (Some arr) indexCount offset w
    = Done (true, this,
            with_binding GL_ELEMENT_ARRAY_BUFFER 0
              (with_buffers
                 (insert (m_buffer this)
                    (mkBufferObject
                       (list_inserts (N.to_nat offset)
                          (Some <$> take (N.to_nat indexCount) arr)
                          (bo_data bo))
                       (bo_usage bo) None))
                 (with_binding GL_ELEMENT_ARRAY_BUFFER (m_buffer this) w))).
Proof.
  intros (Hb & Hbo & Hmap & Hlen & Hstore) Hr Hlt Hsum.
  pose proof (readable_bytes _ _ Hr) as Hbytes.
  destruct Hr as (arr' & [= <-] & Hn & Harr).
  unfold store_bytes, PTRDIFF_MAX, sizeof_GLuint in *.
  rewrite update_accepted; [|done|]; last first.
  { right. rewrite size_t_wrap_small; [done|]. unfold SIZE_MAX. lia. }
  destruct (N.leb_spec (m_size this) indexCount) as [|_]; [lia|].
  rewrite (to_GLsizeiptr_small (sizeof_GLuint * indexCount)) by done.
  rewrite (to_GLsizeiptr_small (sizeof_GLuint * offset))
    by (unfold PTRDIFF_MAX, sizeof_GLuint; lia).
  erewrite gl_bind_Done; last first.
  { apply glBindBuffer_present. right. by rewrite Hbo. }
  rewrite (gl_bind_Done _ _ _ this _) by done.
  erewrite gl_bind_Done; last first.
  { eapply (glBufferSubData_run _ _ _ _ (m_buffer this) bo);
      autorewrite with world; try done.
    - lia.
    - lia.
    - unfold store_bytes, sizeof_GLuint. lia.
    - rewrite cells_indices. lia. }
  erewrite gl_bind_Done; last first.
  { apply glBindBuffer_present. by left. }
  by rewrite !cells_indices.
Qed.

(** Writing a buffer object twice through the element-array binding point
    leaves the driver as the second write alone would. *)
Lemma rebound_store name bo1 bo2 w :
  with_binding GL_ELEMENT_ARRAY_BUFFER 0
    (with_buffers (insert name bo2)
       (with_binding GL_ELEMENT_ARRAY_BUFFER name
          (with_binding GL_ELEMENT_ARRAY_BUFFER 0
             (with_buffers (insert name bo1)
                (with_binding GL_ELEMENT_ARRAY_BUFFER name w)))))
  = with_binding GL_ELEMENT_ARRAY_BUFFER 0
      (with_buffers (insert name bo2)
         (with_binding GL_ELEMENT_ARRAY_BUFFER name w)).
Proof. destruct w. cbn. f_equal. apply insert_insert_eq. Qed.

(** X6.  Two in-place updates of one buffer that write disjoint ranges can be
    made in either order: both orders succeed and leave the same object and
    the same driver state. *)
Theorem update_disjoint_commute
    this bo w arr1 count1 offset1 arr2 count2 offset2 :
  allocated w this bo →
  readable (Some arr1) count1 → readable (Some arr2) count2 →
  count1 < m_size this → offset1 + count1 ≤ m_size this →
  count2 < m_size this → offset2 + count2 ≤ m_size this →
  offset1 + count1 ≤ offset2 ∨ offset2 + count2 ≤ offset1 →
  ∃ w',
    ('(_, this1) ← update this (Some arr1) count1 offset1;
     update this1 (Some arr2) count2 offset2) w = Done (true, this, w') ∧
    ('(_, this2) ← update this (Some arr2) count2 offset2;
     update this2 (Some arr1) count1 offset1) w = Done (true, this, w').
Proof.
  intros Halloc Hr1 Hr2 Hlt1 Hsum1 Hlt2 Hsum2 Hdisj.
  pose proof Halloc as (Hb & Hbo & Hmap & Hlen & Hstore).
  assert (Hstep : ∀ data, length data = length (bo_data bo) →
    allocated
      (with_binding GL_ELEMENT_ARRAY_BUFFER 0
         (with_buffers
            (insert (m_buffer this) (mkBufferObject data (bo_usage bo) None))
            (with_binding GL_ELEMENT_ARRAY_BUFFER (m_buffer this) w)))
      this (mkBufferObject data (bo_usage bo) None)).
  { intros data Hdata. unfold allocated. autorewrite with world.
    rewrite lookup_insert_eq. unfold store_bytes in *. cbn.
    rewrite Hdata. by split_and!. }
  pose proof Hr1 as (? & [= <-] & Hn1 & _).
  pose proof Hr2 as (? & [= <-] & Hn2 & _).
  eexists. split.
  - erewrite gl_bind_Done;
      [|by apply (update_in_place_run this arr1 count1 offset1 w bo)].
    cbn beta iota.
    erewrite update_in_place_run;
      [|apply Hstep; by rewrite length_inserts|done..].
    cbn [bo_data bo_usage]. by rewrite rebound_store.
  - erewrite gl_bind_Done;
      [|by apply (update_in_place_run this arr2 count2 offset2 w bo)].
    cbn beta iota.
    erewrite update_in_place_run;
      [|apply Hstep; by rewrite length_inserts|done..].
    cbn [bo_data bo_usage]. rewrite rebound_store.
    rewrite (list_inserts_disjoint_commute (N.to_nat offset1)
               (N.to_nat offset2)); [done|].
    rewrite !length_fmap, !length_take. lia.
Qed.

Lemma update_disjoint_commute_witness :
  ∃ w',
    ('(_, this1) ← update (mkIndexBuffer 1 4 Stream) (Some [8]) 1 1;
     update this1 (Some [9]) 1 3)
      (holding [(1, indices_of [1; 2; 3; 4] GL_STREAM_DRAW)] true)
    = Done (true, mkIndexBuffer 1 4 Stream, w') ∧
    ('(_, this2) ← update (mkIndexBuffer 1 4 Stream) (Some [9]) 1 3;
     update this2 (Some [8]) 1 1)
      (holding [(1, indices_of [1; 2; 3; 4] GL_STREAM_DRAW)] true)
    = Done (true, mkIndexBuffer 1 4 Stream, w').
Proof.
  apply (update_disjoint_commute (mkIndexBuffer 1 4 Stream)
           (indices_of [1; 2; 3; 4] GL_STREAM_DRAW)).
  - unfold allocated. by split_and!.
  - exists [8]. split_and!; [done|simpl; lia|done].
  - exists [9]. split_and!; [done|simpl; lia|done].
  - simpl. lia.
  - simpl. lia.
  - simpl. lia.
  - simpl. lia.
  - left. simpl. lia.
Defined.

Lemma update_all_run this indices w bo :
  allocated w this bo →
  readable indices (m_size this) →
  ∃ arr w',
    indices = Some arr ∧
    update_all this indices w = Done (true, this, w') ∧
    allocated w' this
      (indices_of (take (N.to_nat (m_size this)) arr)
         (usageToGlEnum (m_usage this))) ∧
    (∀ name, name ≠ m_buffer this →
       gl_buffers w' !! name = gl_buffers w !! name).
Proof.
  intros (Hb & _) Hr. pose proof (readable_bytes _ _ Hr) as Hbytes.
  destruct (update_orphan_run this indices (m_size this) w)
    as (arr & w' & -> & Hrun & Hbo & Hothers); [done|done|done|].
  destruct Hr as (? & [= <-] & Hn & _).
  exists arr, w'. split; [done|]. split.
  { unfold update_all. rewrite Hrun. by destruct this. }
  split; [|done]. unfold allocated, indices_of.
  rewrite Hbo. split_and!; try done.
  - cbn. rewrite length_fmap, length_take. lia.
  - unfold store_bytes. cbn. rewrite length_fmap, length_take.
    unfold sizeof_GLuint, PTRDIFF_MAX in *. lia.
Qed.

(** X7.  After [setUsage], the whole-buffer [update(data)] of an allocated
    buffer succeeds, keeps handle and capacity, and replaces the store by
    one that holds exactly the first [m_size] indices at [data] and carries
    the tag of the new usage; every other buffer object is as before. *)
Theorem update_all_replaces this usage indices w bo :
  allocated w this bo →
  readable indices (m_size this) →
  ∃ arr w',
    indices = Some arr ∧
    update_all (setUsage this usage) indices w
      = Done (true, setUsage this usage, w') ∧
    getNativeHandle (setUsage this usage) = getNativeHandle this ∧
    getIndexCount (setUsage this usage) = getIndexCount this ∧
    allocated w' (setUsage this usage)
      (indices_of (take (N.to_nat (m_size this)) arr)
         (usageToGlEnum usage)) ∧
    (∀ name, name ≠ m_buffer this →
       gl_buffers w' !! name = gl_buffers w !! name).
Proof.
  intros Halloc Hr.
  assert (allocated w (setUsage this usage) bo) as Halloc' by done.
  destruct (update_all_run (setUsage this usage) indices w bo Halloc' Hr)
    as (arr & w' & -> & Hrun & Hnew & Hothers).
  exists arr, w'. by split_and!.
Qed.

Lemma update_all_replaces_witness :
  ∃ w', update_all (mkIndexBuffer 1 3 Static) (Some [7; 8; 9; 10])
          (holding [(1, indices_of [1; 2; 3] GL_STREAM_DRAW)] true)
        = Done (true, mkIndexBuffer 1 3 Static, w') ∧
        gl_buffers w' !! 1 = Some (indices_of [7; 8; 9] GL_STATIC_DRAW).
Proof.
  destruct (update_all_replaces (mkIndexBuffer 1 3 Stream) Static
              (Some [7; 8; 9; 10])
              (holding [(1, indices_of [1; 2; 3] GL_STREAM_DRAW)] true)
              (indices_of [1; 2; 3] GL_STREAM_DRAW))
    as (arr & w' & _ & Hrun & _).
  - unfold allocated. by split_and!.
  - exists [7; 8; 9; 10]. split_and!; [done|simpl; lia|done].
  - exists w'. vm_compute in Hrun. injection Hrun as <-. by vm_compute.
Defined.

(** X8.  [update] keeps the ownership invariant: on a buffer that owns a
    store of [m_size] indices, every call within the array-length contract
    that passes the range check succeeds and leaves the buffer owning a
    store of exactly the new [m_size] indices. *)
Theorem update_keeps_allocated this indices indexCount offset w bo :
  allocated w this bo →
  readable indices indexCount →
  offset = 0 ∨ offset + indexCount ≤ m_size this →
  ∃ this' w' bo',
    update this indices indexCount offset w = Done (true, this', w') ∧
    allocated w' this' bo' ∧
    getNativeHandle this' = getNativeHandle this ∧
    getIndexCount this' = N.max (getIndexCount this) indexCount.
Proof.
  intros Halloc Hr Hrange. pose proof Halloc as (Hb & _).
  pose proof (readable_bytes _ _ Hr) as Hbytes.
  destruct (decide (m_size this ≤ indexCount)) as [Hle|Hgt].
  - assert (offset = 0) as -> by lia.
    destruct (update_orphan_run this indices indexCount w)
      as (arr & w' & -> & Hrun & Hbo & _); [done..|].
    destruct Hr as (? & [= <-] & Hn & _).
    eexists _, w', _. split; [done|]. split_and!.
    + unfold allocated. cbn [with_size m_buffer m_size].
      rewrite Hbo. split_and!; try done.
      * cbn. rewrite length_fmap, length_take. lia.
      * unfold store_bytes. cbn. rewrite length_fmap, length_take.
        unfold sizeof_GLuint, PTRDIFF_MAX in *. lia.
    + done.
    + unfold getIndexCount. cbn. lia.
  - destruct Hr as (arr & -> & Hr).
    assert (readable (Some arr) indexCount) as Hr' by by exists arr.
    assert (offset + indexCount ≤ m_size this) by lia.
    rewrite (update_in_place_run this arr indexCount offset w bo)
      by (done || lia).
    eexists this, _,
      (mkBufferObject
         (list_inserts (N.to_nat offset)
            (Some <$> take (N.to_nat indexCount) arr) (bo_data bo))
         (bo_usage bo) None).
    split; [done|]. split_and!.
    + destruct Halloc as (_ & Hbo & Hmap & Hlen & Hstore).
      unfold allocated. autorewrite with world.
      rewrite lookup_insert_eq. unfold store_bytes in *. cbn.
      rewrite length_inserts. by split_and!.
    + done.
    + unfold getIndexCount. lia.
Qed.

Lemma update_keeps_allocated_witness :
  ∃ this' w' bo',
    update (mkIndexBuffer 1 2 Dynamic) (Some [5; 6; 7]) 3 0
      (holding [(1, indices_of [1; 2] GL_DYNAMIC_DRAW)] true)
    = Done (true, this', w') ∧
    allocated w' this' bo' ∧
    getNativeHandle this' = 1 ∧
    getIndexCount this' = 3.
Proof.
  apply (update_keeps_allocated (mkIndexBuffer 1 2 Dynamic) (Some [5; 6; 7])
           3 0 (holding [(1, indices_of [1; 2] GL_DYNAMIC_DRAW)] true)
           (indices_of [1; 2] GL_DYNAMIC_DRAW)).
  - unfold allocated. by split_and!.
  - exists [5; 6; 7]. split_and!; [done|simpl; lia|done].
  - by left.
Defined.



(** X10.  [setUsage] does not act on the store the buffer has: an in-place
    update after [setUsage] succeeds and leaves the store with the usage tag
    it was allocated with. *)
Theorem setUsage_not_retroactive this usage indices indexCount offset w bo :
  allocated w this bo →
  readable indices indexCount →
  indexCount < m_size this → offset + indexCount ≤ m_size this →
  ∃ w' bo',
    update (setUsage this usage) indices indexCount offset w
      = Done (true, setUsage this usage, w') ∧
    allocated w' (setUsage this usage) bo' ∧
    bo_usage bo' = bo_usage bo.
Proof.
  intros Halloc Hr Hlt Hsum.
  assert (allocated w (setUsage this usage) bo) as Halloc' by done.
  pose proof Hr as (arr & -> & _).
  rewrite (update_in_place_run (setUsage this usage) arr indexCount offset
             w bo) by done.
  eexists _, (mkBufferObject
                (list_inserts (N.to_nat offset)
                   (Some <$> take (N.to_nat indexCount) arr) (bo_data bo))
                (bo_usage bo) None).
  split; [done|]. split; [|done].
  destruct Halloc as (Hb & Hbo & Hmap & Hlen & Hstore).
  unfold allocated. autorewrite with world.
  cbn [setUsage with_usage m_buffer m_size].
  rewrite lookup_insert_eq. unfold store_bytes in *. cbn.
  rewrite length_inserts. by split_and!.
Qed.

Lemma setUsage_not_retroactive_witness :
  ∃ w' bo',
    update (setUsage (mkIndexBuffer 1 3 Stream) Static) (Some [9]) 1 2
      (holding [(1, indices_of [1; 2; 3] GL_STREAM_DRAW)] true)
    = Done (true, setUsage (mkIndexBuffer 1 3 Stream) Static, w') ∧
    allocated w' (setUsage (mkIndexBuffer 1 3 Stream) Static) bo' ∧
    bo_usage bo' = GL_STREAM_DRAW.
Proof.
  apply (setUsage_not_retroactive (mkIndexBuffer 1 3 Stream) Static
           (Some [9]) 1 2
           (holding [(1, indices_of [1; 2; 3] GL_STREAM_DRAW)] true)
           (indices_of [1; 2; 3] GL_STREAM_DRAW)).
  - unfold allocated. by split_and!.
  - exists [9]. split_and!; [done|simpl; lia|done].
  - simpl. lia.
  - simpl. lia.
Defined.

(** ** More on [update(otherBuffer)] *)

Lemma update_buffer_rejects es this other w :
  es = true ∨ m_buffer this = 0 ∨ m_buffer other = 0 →
  update_buffer es this other w = Done (false, this, w).
Proof.
  intros H. unfold update_buffer. destruct es; [done|].
  destruct (N.eqb_spec (m_buffer this) 0) as [|Hb]; [done|].
  destruct (N.eqb_spec (m_buffer other) 0) as [|Ho]; [done|].
  by destruct H as [?|[?|?]].
Qed.

(** A buffer-to-buffer copy changes no buffer object other than the two
    involved, and writes nothing to the error stream. *)
Lemma update_buffer_same_but es this other w r this' w' :
  update_buffer es this other w = Done (r, this', w') →
  same_but [m_buffer this; m_buffer other] w w'.
Proof.
  intros H.
  destruct (decide (es = true ∨ m_buffer this = 0 ∨ m_buffer other = 0))
    as [Hrej|Hok].
  { rewrite update_buffer_rejects in H by done. simplify_eq.
    apply same_but_refl. }
  assert (es = false ∧ m_buffer this ≠ 0 ∧ m_buffer other ≠ 0)
    as (-> & Hb & Ho) by (destruct es; naive_solver).
  apply N.eqb_neq in Hb as Hb', Ho as Ho'.
  unfold update_buffer in H. rewrite Hb', Ho' in H. cbn in H.
  destruct (GLEXT_copy_buffer w).
  - apply gl_bind_inv in H as (? & w1 & H1 & H).
    apply gl_bind_inv in H as (? & w2 & H2 & H).
    apply gl_bind_inv in H as (? & w3 & H3 & H).
    apply gl_bind_inv in H as (? & w4 & H4 & H).
    apply gl_bind_inv in H as (? & w5 & H5 & H).
    gl_unfold. simplify_eq.
    apply glBindBuffer_frame in H1 as (S1 & _).
    apply glBindBuffer_frame in H2 as (S2 & B2 & _).
    apply glCopyBufferSubData_frame in H3 as (S3 & _).
    apply glBindBuffer_frame in H4 as (S4 & _).
    apply glBindBuffer_frame in H5 as (S5 & _).
    rewrite B2 in S3. rewrite Ho' in S1. rewrite Hb' in S2.
    cbn in S4, S5.
    eapply same_but_weaken;
      [|exact (same_but_trans _ _ _ _ _ S1
                 (same_but_trans _ _ _ _ _ S2
                    (same_but_trans _ _ _ _ _ S3
                       (same_but_trans _ _ _ _ _ S4 S5))))].
    intros name. rewrite ?elem_of_app, ?elem_of_cons, ?elem_of_nil. tauto.
  - apply gl_bind_inv in H as (? & w1 & H1 & H).
    apply gl_bind_inv in H as (? & w2 & H2 & H).
    apply gl_bind_inv in H as (dst & w3 & H3 & H).
    apply gl_bind_inv in H as (? & w4 & H4 & H).
    apply gl_bind_inv in H as (src & w5 & H5 & H).
    apply gl_bind_inv in H as (? & w6 & H6 & H).
    apply gl_bind_inv in H as (sr & w7 & H7 & H).
    apply gl_bind_inv in H as (? & w8 & H8 & H).
    apply gl_bind_inv in H as (dr & w9 & H9 & H).
    apply gl_bind_inv in H as (? & w10 & H10 & H).
    assert (w' = w10) as ->
      by (destruct (_ || _); gl_unfold; by simplify_eq).
    apply glBindBuffer_frame in H1 as (S1 & B1 & _).
    apply glBufferData_frame in H2 as (S2 & B2).
    apply glMapBuffer_frame in H3 as (S3 & B3 & P3).
    apply glBindBuffer_frame in H4 as (S4 & B4 & _).
    apply glMapBuffer_frame in H5 as (S5 & B5 & _).
    apply memcpy_frame in H6 as (d & -> & S6 & B6).
    apply glUnmapBuffer_frame in H7 as (S7 & B7).
    apply glBindBuffer_frame in H8 as (S8 & B8 & _).
    apply glUnmapBuffer_frame in H9 as (S9 & _).
    apply glBindBuffer_frame in H10 as (S10 & _).
    rewrite (P3 d eq_refl), (B2 GL_ELEMENT_ARRAY_BUFFER), B1 in S6.
    rewrite B1 in S2. rewrite (B2 GL_ELEMENT_ARRAY_BUFFER), B1 in S3.
    rewrite B4 in S5.
    rewrite (B6 GL_ELEMENT_ARRAY_BUFFER), (B5 GL_ELEMENT_ARRAY_BUFFER),
      B4 in S7.
    rewrite B8 in S9.
    rewrite Hb' in S1, S8. rewrite Ho' in S4. cbn in S10.
    eapply same_but_weaken;
      [|exact (same_but_trans _ _ _ _ _ S1
                 (same_but_trans _ _ _ _ _ S2
                 (same_but_trans _ _ _ _ _ S3
                 (same_but_trans _ _ _ _ _ S4
                 (same_but_trans _ _ _ _ _ S5
                 (same_but_trans _ _ _ _ _ S6
                 (same_but_trans _ _ _ _ _ S7
                 (same_but_trans _ _ _ _ _ S8
                 (same_but_trans _ _ _ _ _ S9 S10)))))))))].
    intros name. rewrite ?elem_of_app, ?elem_of_cons, ?elem_of_nil. tauto.
Qed.

(** X11.  A buffer-to-buffer copy changes no buffer object other than the
    target and the source, and writes nothing to the error stream. *)
Theorem update_buffer_touches_two es this other w r this' w' :
  update_buffer es this other w = Done (r, this', w') →
  (∀ name, name ≠ m_buffer this → name ≠ m_buffer other →
     gl_buffers w' !! name = gl_buffers w !! name) ∧
  err_stream w' = err_stream w.
Proof.
  intros H. apply update_buffer_same_but in H as (Hsame & Herr & _).
  split; [|done]. intros name Hthis Hother. apply Hsame.
  rewrite !not_elem_of_cons, elem_of_nil. tauto.
Qed.

Lemma update_buffer_touches_two_witness :
  ∃ w', update_buffer false (mkIndexBuffer 2 3 Static)
          (mkIndexBuffer 1 3 Stream)
          (holding [(1, indices_of [5; 6; 7] GL_STREAM_DRAW);
                    (2, unwritten 3 GL_STATIC_DRAW);
                    (3, indices_of [4] GL_DYNAMIC_DRAW)] false)
        = Done (true, mkIndexBuffer 2 3 Static, w') ∧
        gl_buffers w' !! 3 = Some (indices_of [4] GL_DYNAMIC_DRAW).
Proof.
  eexists. split; [vm_compute; reflexivity|].
  destruct (update_buffer_touches_two false (mkIndexBuffer 2 3 Static)
              (mkIndexBuffer 1 3 Stream)
              (holding [(1, indices_of [5; 6; 7] GL_STREAM_DRAW);
                        (2, unwritten 3 GL_STATIC_DRAW);
                        (3, indices_of [4] GL_DYNAMIC_DRAW)] false)
              _ _ _ eq_refl) as [Hothers _].
  by rewrite Hothers.
Defined.

(** X12.  On a driver with the fast-copy capability, a desktop build reports
    success for [B.update(A)] exactly when both handles are non-empty,
    whatever the two capacities are; when it reports failure, nothing has
    changed. *)
Theorem update_buffer_fast_copy_outcome this other w :
  GLEXT_copy_buffer w = true →
  ∃ r w',
    update_buffer false this other w = Done (r, this, w') ∧
    (r = true ↔ m_buffer this ≠ 0 ∧ m_buffer other ≠ 0) ∧
    (r = false → w' = w).
Proof.
  intros Hcap. unfold update_buffer.
  destruct (N.eqb_spec (m_buffer this) 0) as [Hb|Hb]; cbn.
  { exists false, w. split_and!; [done| |done].
    split; [done|]. by intros [? _]. }
  destruct (N.eqb_spec (m_buffer other) 0) as [Ho|Ho]; cbn.
  { exists false, w. split_and!; [done| |done].
    split; [done|]. by intros [_ ?]. }
  rewrite Hcap. unfold glBindBuffer, glCopyBufferSubData. gl_unfold.
  eexists true, _. split_and!; [done| |done]. by split.
Qed.

Lemma update_buffer_fast_copy_outcome_witness :
  ∃ r w',
    update_buffer false (mkIndexBuffer 2 2 Static) (mkIndexBuffer 1 3 Stream)
      (holding [(1, indices_of [5; 6; 7] GL_STREAM_DRAW);
                (2, indices_of [1; 2] GL_STATIC_DRAW)] true)
    = Done (r, mkIndexBuffer 2 2 Static, w') ∧
    (r = true ↔ 2 ≠ 0 ∧ 1 ≠ 0) ∧
    (r = false →
       w' = holding [(1, indices_of [5; 6; 7] GL_STREAM_DRAW);
                     (2, indices_of [1; 2] GL_STATIC_DRAW)] true).
Proof.
  apply (update_buffer_fast_copy_outcome (mkIndexBuffer 2 2 Static)
           (mkIndexBuffer 1 3 Stream)).
  reflexivity.
Defined.

(** The fast path between two allocated buffers of equal capacity. *)
Lemma update_buffer_fast_run A B boA boB w :
  allocated w A boA → allocated w B boB →
  m_buffer A ≠ m_buffer B → m_size B = m_size A →
  GLEXT_copy_buffer w = true →
  ∃ w',
    update_buffer false B A w = Done (true, B, w') ∧
    allocated w' A boA ∧
    gl_buffers w' !! m_buffer B
      = Some (mkBufferObject (bo_data boA) (bo_usage boB) None).
Proof.
  intros HA HB Hne Hsize Hcap.
  destruct (allocated_bytes _ _ _ HA) as (HbytesA & HstoreA & HlenA).
  destruct (allocated_bytes _ _ _ HB) as (HbytesB & HstoreB & HlenB).
  pose proof HA as (Ha0 & HboA & HmapA & HnA & _).
  pose proof HB as (Hb0 & HboB & HmapB & HnB & _).
  unfold update_buffer.
  destruct (N.eqb_spec (m_buffer B) 0) as [|_]; [done|].
  destruct (N.eqb_spec (m_buffer A) 0) as [|_]; [done|]. cbn.
  rewrite Hcap.
  rewrite (to_GLsizeiptr_small (sizeof_GLuint * m_size A)) by done.
  erewrite gl_bind_Done; last first.
  { apply glBindBuffer_present. right. by rewrite HboA. }
  erewrite gl_bind_Done; last first.
  { apply glBindBuffer_present. right.
    by rewrite gl_buffers_with_binding, HboB. }
  erewrite gl_bind_Done; last first.
  { eapply (glCopyBufferSubData_run _ _ _ (m_buffer A) (m_buffer B) boA boB);
      rewrite ?gl_buffers_with_binding; try done; lia. }
  erewrite gl_bind_Done; last first.
  { apply glBindBuffer_present. by left. }
  erewrite gl_bind_Done; last first.
  { apply glBindBuffer_present. by left. }
  eexists. split; [done|]. unfold allocated. autorewrite with world.
  rewrite lookup_insert_ne, lookup_insert_eq by done.
  split; [done|]. do 2 f_equal.
  rewrite cells_indices, <- HlenA, firstn_all.
  apply list_inserts_all. lia.
Qed.

(** ** More on copy construction, assignment and swap *)

Lemma app_singleton_neq {A} (l : list A) x : l ++ [x] ≠ l.
Proof.
  intros H. apply (f_equal length) in H. rewrite length_app in H.
  cbn in H. lia.
Qed.

(** The handle of a copy-constructed instance is empty or names no buffer
    object that was there before. *)
Lemma IndexBuffer_copy_handle es copy w this' w' :
  IndexBuffer_copy es copy w = Done (this', w') →
  m_buffer this' = 0 ∨ gl_buffers w !! m_buffer this' = None.
Proof.
  intros H.
  destruct (decide (m_buffer copy = 0 ∨ m_size copy = 0)) as [Hun|Hal].
  { rewrite IndexBuffer_copy_unallocated in H by done. simplify_eq.
    by left. }
  rewrite IndexBuffer_copy_stages in H by naive_solver.
  apply gl_bind_inv in H as ([created this1] & w1 & Hcreate & H).
  destruct created; cbn [negb] in H.
  - apply gl_bind_inv in H as ([updated this2] & w2 & Hupdate & H).
    apply gl_bind_inv in H as (? & w3 & _ & H).
    gl_unfold. simplify_eq.
    apply update_buffer_members in Hupdate as ->.
    apply create_inv in Hcreate as (_ & _ & Hnone). right. by apply Hnone.
  - apply gl_bind_inv in H as (? & w3 & _ & H).
    gl_unfold. simplify_eq.
    apply create_members in Hcreate as (_ & Hb & _). by left.
Qed.

(** X13.  Copy construction in a desktop build, from an allocated source,
    with a driver that generates a handle: the new instance has a handle of
    its own, which named no buffer object before, and the capacity and usage
    of the source; no buffer object other than the new one and the source
    has changed. With the fast-copy capability, or whenever no failure was
    reported, the new store holds exactly the contents of the source and the
    source is as it was. *)
Theorem IndexBuffer_copy_independent copy bo w :
  allocated w copy bo → m_size copy ≠ 0 →
  head (gl_gen_script w) ≠ Some false →
  ∃ this' w',
    IndexBuffer_copy false copy w = Done (this', w') ∧
    getNativeHandle this' ≠ 0 ∧
    getNativeHandle this' ≠ getNativeHandle copy ∧
    gl_buffers w !! getNativeHandle this' = None ∧
    getIndexCount this' = getIndexCount copy ∧
    getUsage this' = getUsage copy ∧
    (∀ name, name ≠ m_buffer this' → name ≠ m_buffer copy →
       gl_buffers w' !! name = gl_buffers w !! name) ∧
    (GLEXT_copy_buffer w = true ∨ err_stream w' = err_stream w →
       err_stream w' = err_stream w ∧
       allocated w' copy bo ∧
       ∃ bo', allocated w' this' bo' ∧ bo_data bo' = bo_data bo).
Proof.
  intros Hcopy Hsize Hgen.
  pose proof Hcopy as (Hb & Hbo & Hmap & Hlen & Hstore).
  destruct (allocated_bytes _ _ _ Hcopy) as (Hbytes & _ & _).
  set (this0 := mkIndexBuffer 0 0 (m_usage copy)).
  destruct (create_succeeds this0 (m_size copy) w)
    as (this1 & w1 & Hcreate & Hcount & Husage & _ & Hfresh & Halloc1
        & (Hsame1 & Herr1 & Hcap1) & _); [by right|done|].
  specialize (Hfresh eq_refl).
  pose proof Halloc1 as (Hb1 & Hbo1 & _).
  unfold getIndexCount, getUsage, getNativeHandle in *.
  cbn [this0 m_usage] in *.
  assert (Hne : m_buffer copy ≠ m_buffer this1) by congruence.
  assert (Hcopy1 : allocated w1 copy bo).
  { unfold allocated. rewrite Hsame1; [done|].
    rewrite not_elem_of_cons, elem_of_nil. tauto. }
  assert (∃ r w2,
    update_buffer false this1 copy w1 = Done (r, this1, w2) ∧
    (GLEXT_copy_buffer w = true → r = true) ∧
    (r = true →
       allocated w2 copy bo ∧
       ∃ bo', allocated w2 this1 bo' ∧ bo_data bo' = bo_data bo))
    as (r & w2 & Hupdate & Hfast & Hok).
  { assert (∀ w2 usage,
      allocated w2 copy bo →
      gl_buffers w2 !! m_buffer this1
        = Some (mkBufferObject (bo_data bo) usage None) →
      allocated w2 copy bo ∧
      ∃ bo', allocated w2 this1 bo' ∧ bo_data bo' = bo_data bo) as Hfin.
    { intros w2 usage HA HB. split; [done|].
      exists (mkBufferObject (bo_data bo) usage None). split; [|done].
      unfold allocated. rewrite HB. split_and!; try done. cbn. lia. }
    destruct (GLEXT_copy_buffer w1) eqn:Hcapw1.
    - destruct (update_buffer_fast_run copy this1 bo
                  (unwritten (N.to_nat (m_size copy))
                     (usageToGlEnum (m_usage copy))) w1)
        as (w2 & Hrun & HA & HB); [done..|].
      exists true, w2. split_and!; [done|done|]. intros _. by eapply Hfin.
    - destruct (update_buffer_fallback_run copy this1 bo w1)
        as (r & w2 & Hrun & Hok); [done..|].
      exists r, w2. split_and!; [done|congruence|].
      intros Hr. destruct (Hok Hr) as [HA HB]. by eapply Hfin. }
  pose proof (update_buffer_same_but _ _ _ _ _ _ _ Hupdate)
    as (Hsame2 & Herr2 & _).
  rewrite IndexBuffer_copy_stages by done. fold this0.
  rewrite (gl_bind_Done _ _ _ _ _ Hcreate). cbn beta iota. cbn [negb].
  rewrite (gl_bind_Done _ _ _ _ _ Hupdate). cbn beta iota.
  assert (Hothers : ∀ name, name ≠ m_buffer this1 → name ≠ m_buffer copy →
            gl_buffers w2 !! name = gl_buffers w !! name).
  { intros name Hn1 Hn2. rewrite Hsame2, Hsame1; [done|..];
      rewrite ?not_elem_of_cons, elem_of_nil; tauto. }
  destruct r; gl_unfold; cbn.
  - eexists _, _. split; [done|]. split_and!; try done; try congruence.
    intros _. split; [congruence|]. by apply Hok.
  - eexists _, _. split; [done|]. split_and!; try done; try congruence.
    intros [Hcap|Herr]; [by specialize (Hfast Hcap)|].
    cbn in Herr. rewrite Herr2, Herr1 in Herr.
    by apply app_singleton_neq in Herr.
Qed.

Lemma IndexBuffer_copy_independent_witness :
  ∃ this' w',
    IndexBuffer_copy false (mkIndexBuffer 1 3 Stream)
      (holding [(1, indices_of [5; 6; 7] GL_STREAM_DRAW)] false)
    = Done (this', w') ∧
    gl_buffers w' !! m_buffer this'
      = Some (indices_of [5; 6; 7] GL_STREAM_DRAW).
Proof.
  destruct (IndexBuffer_copy_independent (mkIndexBuffer 1 3 Stream)
              (indices_of [5; 6; 7] GL_STREAM_DRAW)
              (holding [(1, indices_of [5; 6; 7] GL_STREAM_DRAW)] false))
    as (this' & w' & Hrun & _).
  - unfold allocated. by split_and!.
  - done.
  - simpl. discriminate.
  - exists this', w'. split; [done|].
    vm_compute in Hrun. injection Hrun as <- <-. by vm_compute.
Defined.

(** X14.  Assignment releases what the target held: after [this = right], the
    old handle of [this] names no buffer object any more, the new handle is
    a different one, and what the copy construction from [right] left in the
    other buffer objects is still there. *)
Theorem assign_releases_old es this right w this' w' :
  assign es this right w = Done (this', w') →
  m_buffer this ≠ 0 → is_Some (gl_buffers w !! m_buffer this) →
  gl_buffers w' !! m_buffer this = None ∧
  getNativeHandle this' ≠ getNativeHandle this ∧
  ∃ w1,
    IndexBuffer_copy es right w = Done (this', w1) ∧
    (∀ name, name ≠ m_buffer this →
       gl_buffers w' !! name = gl_buffers w1 !! name).
Proof.
  unfold assign. intros H Hb [bo Hbo].
  apply gl_bind_inv in H as (temp & w1 & Hcopy & H).
  unfold swap in H. cbn [m_buffer m_size m_usage] in H.
  apply gl_bind_inv in H as (? & w2 & Hdestroy & H).
  gl_unfold. simplify_eq.
  destruct (destroy_buffers
              (mkIndexBuffer (m_buffer this) (m_size this) (m_usage this))
              w1) as (w2' & Hrun & Hbufs).
  rewrite Hrun in Hdestroy. simplify_eq. cbn [m_buffer] in Hbufs.
  apply N.eqb_neq in Hb as Hb'. rewrite Hb' in Hbufs.
  split_and!.
  - rewrite Hbufs. apply lookup_delete_eq.
  - unfold getNativeHandle. cbn.
    apply IndexBuffer_copy_handle in Hcopy as [H0|Hnone]; congruence.
  - exists w1. split; [by destruct temp|].
    intros name Hne. rewrite Hbufs. by apply lookup_delete_ne.
Qed.

Lemma assign_releases_old_witness :
  ∃ this' w',
    assign false (mkIndexBuffer 2 1 Static) (mkIndexBuffer 1 3 Stream)
      (holding [(1, indices_of [5; 6; 7] GL_STREAM_DRAW);
                (2, indices_of [9] GL_STATIC_DRAW)] true)
    = Done (this', w') ∧
    gl_buffers w' !! 2 = None ∧
    m_buffer this' ≠ 2.
Proof.
  eexists _, _. split; [vm_compute; reflexivity|].
  destruct (assign_releases_old false (mkIndexBuffer 2 1 Static)
              (mkIndexBuffer 1 3 Stream)
              (holding [(1, indices_of [5; 6; 7] GL_STREAM_DRAW);
                        (2, indices_of [9] GL_STATIC_DRAW)] true)
              _ _ eq_refl) as (Hgone & Hnew & _).
  - done.
  - by eexists.
  - split; [exact Hgone|exact Hnew].
Defined.

(** X15.  [swap] exchanges the ownership of two buffers without a driver
    call, and swapping twice gives back the two instances. *)
Theorem swap_exchanges a b w boa bob :
  allocated w a boa → allocated w b bob →
  allocated w (swap a b).1 bob ∧
  allocated w (swap a b).2 boa ∧
  swap (swap a b).1 (swap a b).2 = (a, b).
Proof. intros Ha Hb. by destruct a, b. Qed.

Lemma swap_exchanges_witness :
  let a := mkIndexBuffer 1 3 Stream in
  let b := mkIndexBuffer 2 1 Static in
  let w := holding [(1, indices_of [5; 6; 7] GL_STREAM_DRAW);
                    (2, indices_of [9] GL_STATIC_DRAW)] true in
  allocated w (swap a b).1 (indices_of [9] GL_STATIC_DRAW) ∧
  allocated w (swap a b).2 (indices_of [5; 6; 7] GL_STREAM_DRAW) ∧
  swap (swap a b).1 (swap a b).2 = (a, b).
Proof.
  apply swap_exchanges.
  - unfold allocated. by split_and!.
  - unfold allocated. by split_and!.
Defined.
